(** * Snowflake Query Monitor (app.py): filter composition, top-N views,
    live-query view and estimated-cost allocation.

    The dashboard script is embedded part by part:
    - [Filters]: the module-level code that builds [base_filters], [params],
      [base_where], [wh_filter_sql] and [wh_params] from the sidebar inputs;
    - [Live]: [run_show_queries] and the running-queries section, as a small
      trace-and-exception monad over the calls made on the connection;
    - [Frames]: the pandas [sort_values(...).head(10)] pipelines;
    - [Sql]: the relational meaning of [raw_sql] and [cost_sql]. *)

From Stdlib Require Import Ascii QArith Qcanon.
From stdpp Require Import gmap strings list fin_maps pretty numbers sorting.

(** ** Python strings *)

(** [sep.join(l)] *)
Fixpoint join (sep : string) (l : list string) : string :=
  match l with
  | [] => EmptyString
  | x :: l' =>
      match l' with
      | [] => x
      | _ :: _ => x +:+ sep +:+ join sep l'
      end
  end.

(** Truthiness of a [str]: only the empty string is falsy. *)
Definition truthy (s : string) : bool :=
  match s with
  | EmptyString => false
  | String _ _ => true
  end.

(** [s.strip() == ""]: the text is empty or made of whitespace only. *)
Fixpoint blank (s : string) : bool :=
  match s with
  | EmptyString => true
  | String c s' => Ascii.is_space c && blank s'
  end.

(** [c in s] for a one-character [c]. *)
Fixpoint has_char (c : ascii) (s : string) : bool :=
  match s with
  | EmptyString => false
  | String c' s' => Ascii.eqb c c' || has_char c s'
  end.

(** [s.count(c)] for a one-character [c]. *)
Fixpoint count_char (c : ascii) (s : string) : nat :=
  match s with
  | EmptyString => 0
  | String c' s' => (if Ascii.eqb c c' then 1 else 0) + count_char c s'
  end.

(** ** Named placeholders of a pyformat SQL text

    The connector's [pyformat] style references a binding as [%(name)s].
    [placeholders] lists the names referenced by a text, left to right;
    [%%] is the escaped percent sign. *)
Inductive scan_state :=
  | Text
  | Percent
  | Name (acc : string).

Fixpoint scan (st : scan_state) (s : string) : list string :=
  match s with
  | EmptyString => []
  | String c s' =>
      match st with
      | Text => if Ascii.eqb c "%" then scan Percent s' else scan Text s'
      | Percent => if Ascii.eqb c "(" then scan (Name EmptyString) s' else scan Text s'
      | Name acc =>
          if Ascii.eqb c ")" then acc :: scan Text s'
          else scan (Name (acc +:+ String c EmptyString)) s'
      end
  end.

Definition placeholders (sql : string) : list string := scan Text sql.

Module Filters.

(** The sidebar widgets' values, as the script reads them after
    [to_ts_range] has rendered the two dates. *)
Record Sidebar := {
  start_ts : string;
  end_ts : string;
  warehouses : list string;
  fallback_window : nat;
  user_filter : string;
  query_tag : string;
}.

(** [f"wh_{idx}"] *)
Definition wh_key (idx : nat) : string := "wh_" +:+ pretty idx.

(** [f"%({key})s"] *)
Definition placeholder (key : string) : string := "%(" +:+ key +:+ ")s".

#[global] Arguments wh_key : simpl never.
#[global] Arguments placeholder : simpl never.

(** [warehouses and "ALL" not in warehouses] *)
Definition wh_selected (ws : list string) : bool :=
  bool_decide (ws ≠ []) && bool_decide ("ALL" ∉ ws).

(** One iteration of [for idx, wh in enumerate(warehouses)]: the binding is
    stored under [key] and the placeholder appended. *)
Definition wh_step (st : gmap string string * list string) (iw : nat * string)
    : gmap string string * list string :=
  (<[wh_key iw.1 := iw.2]> st.1, st.2 ++ [placeholder (wh_key iw.1)]).

Definition wh_loop (ws : list string) (p : gmap string string)
    : gmap string string * list string :=
  foldl wh_step (p, []) (imap pair ws).

(** Lines 195-214: the pair ([base_filters], [params]) after the three
    conditional blocks. *)
Definition build (inp : Sidebar) : list string * gmap string string :=
  let base_filters := ["START_TIME >= %(start_ts)s"; "START_TIME <= %(end_ts)s"] in
  let params : gmap string string :=
    <["end_ts" := end_ts inp]> (<["start_ts" := start_ts inp]> ∅) in
  let '(base_filters, params) :=
    if wh_selected (warehouses inp) then
      let '(params, wh_placeholders) := wh_loop (warehouses inp) params in
      (base_filters ++ ["WAREHOUSE_NAME IN (" +:+ join ", " wh_placeholders +:+ ")"],
       params)
    else (base_filters, params) in
  let '(base_filters, params) :=
    if truthy (user_filter inp) then
      (base_filters ++ ["USER_NAME = %(user_name)s"],
       <["user_name" := user_filter inp]> params)
    else (base_filters, params) in
  if truthy (query_tag inp) then
    (base_filters ++ ["QUERY_TAG = %(query_tag)s"],
     <["query_tag" := query_tag inp]> params)
  else (base_filters, params).

Definition base_filters (inp : Sidebar) : list string := (build inp).1.
Definition params (inp : Sidebar) : gmap string string := (build inp).2.

(** [" AND ".join(base_filters)] *)
Definition base_where (inp : Sidebar) : string := join " AND " (base_filters inp).

(** Lines 217-225. *)
Definition wh_build (inp : Sidebar) : string * gmap string string :=
  if wh_selected (warehouses inp) then
    let '(wh_params, wh_placeholders) := wh_loop (warehouses inp) ∅ in
    ("AND WAREHOUSE_NAME IN (" +:+ join ", " wh_placeholders +:+ ")", wh_params)
  else (EmptyString, ∅).

Definition wh_filter_sql (inp : Sidebar) : string := (wh_build inp).1.
Definition wh_params (inp : Sidebar) : gmap string string := (wh_build inp).2.

(** [cost_params = params.copy(); cost_params.update(wh_params)] *)
Definition cost_params (inp : Sidebar) : gmap string string :=
  wh_params inp ∪ params inp.

End Filters.


(** ** The live-queries path

    [run_show_queries] and the "Currently Running" section talk to the
    connection and to the page. Both are embedded in a writer-and-exception
    monad: a computation yields the events it caused, in order, and either
    the exception it raised or its value. What the connection answers is a
    parameter ([Connection]). *)
Module Live.

(** Exception classes of the connector that matter to the [except] clause. *)
Inductive exn_class :=
  | ProgrammingError
  | OperationalError
  | InterfaceError
  | NotSupportedError
  | OtherException.

Record exn := { exn_cls : exn_class; exn_msg : string }.

(** [isinstance(exc, sf_errors.ProgrammingError)] *)
Definition is_programming_error (e : exn) : bool :=
  match exn_cls e with
  | ProgrammingError => true
  | _ => false
  end.

(** A binding value: the fallback query binds a text and a number. *)
Inductive pyval :=
  | PStr (s : string)
  | PInt (n : nat).

(** A frame: its column labels and its rows of cells. *)
Record DataFrame := { columns : list string; rows : list (list string) }.

(** [pd.DataFrame()] *)
Definition empty_frame : DataFrame := {| columns := []; rows := [] |}.

(** [df.empty]: some axis has length zero. *)
Definition df_empty (df : DataFrame) : bool :=
  bool_decide (columns df = []) || bool_decide (rows df = []).

(** Position of a label among the columns ([None] when absent). *)
Fixpoint col_index (c : string) (cols : list string) : option nat :=
  match cols with
  | [] => None
  | c' :: cols' =>
      if bool_decide (c = c') then Some 0 else S <$> col_index c cols'
  end.

(** [df[df[col] == v]] for a column known to be present at position [i]. *)
Definition select_eq (i : nat) (v : string) (df : DataFrame) : DataFrame :=
  {| columns := columns df;
     rows := filter (λ r, r !! i = Some v) (rows df) |}.

Inductive event :=
  | EvGetConnection
  | EvCursor
  | EvExecute (sql : string) (binds : list (string * pyval))
  | EvFetchPandasAll
  | EvClose
  | EvRunQuery (sql : string) (binds : list (string * pyval))
  | EvSubheader (msg : string)
  | EvWarning (msg : string)
  | EvCaption (msg : string)
  | EvInfo (msg : string)
  | EvDataframe (df : DataFrame).

(** What the outside answers: [get_connection()] may fail, each [execute]
    may fail, [fetch_pandas_all] fails or yields the frame; [run_query] (the
    cached executor used by the fallback) fails or yields a frame. *)
Record Connection := {
  connect : option exn;
  execute : string → list (string * pyval) → option exn;
  fetch_pandas_all : exn + DataFrame;
  run_query : string → list (string * pyval) → exn + DataFrame;
}.

Definition M (A : Type) : Type := list event * (exn + A).

#[global] Instance M_ret : MRet M := λ A a, ([], inr a).
#[global] Instance M_bind : MBind M := λ A B f m,
  match m with
  | (t, inl e) => (t, inl e)
  | (t, inr a) => let '(t', r) := f a in (t ++ t', r)
  end.

Definition emit (ev : event) : M unit := ([ev], inr tt).

(** An outside call: the event, then the answer. *)
Definition call {A} (ev : event) (answer : exn + A) : M A := ([ev], answer).

Definition check (o : option exn) : exn + unit :=
  match o with
  | Some e => inl e
  | None => inr tt
  end.

(** [try: body except <class> as exc: handler exc] *)
Definition try_except {A} (body : M A) (catches : exn → bool)
    (handler : exn → M A) : M A :=
  match body with
  | (t, inl e) =>
      if catches e then let '(t', r) := handler e in (t ++ t', r)
      else (t, inl e)
  | (t, inr a) => (t, inr a)
  end.

(** [try: body finally: fin] *)
Definition try_finally {A} (body : M A) (fin : M unit) : M A :=
  let '(t, r) := body in
  match fin with
  | (t', inl e) => (t ++ t', inl e)
  | (t', inr _) => (t ++ t', r)
  end.

Definition show_sql : string := "SHOW QUERIES IN WAREHOUSE IDENTIFIER(%(warehouse)s)".
Definition result_scan_sql : string := "SELECT * FROM TABLE(RESULT_SCAN(LAST_QUERY_ID()))".

Definition unavailable_warning : string :=
  "Live running queries are unavailable. Ensure your role has MONITOR privilege and that SHOW QUERIES is supported in your account.".

(** The body of the inner [try] of [run_show_queries]. *)
Definition show_body (conn : Connection) (warehouse : string) : M DataFrame :=
  let binds := [("warehouse", PStr warehouse)] in
  call (EvExecute show_sql binds) (check (execute conn show_sql binds));;
  call (EvExecute result_scan_sql []) (check (execute conn result_scan_sql []));;
  call EvFetchPandasAll (fetch_pandas_all conn).

(** Lines 76-97. *)
Definition run_show_queries (conn : Connection) (warehouse : string) : M DataFrame :=
  call EvGetConnection (check (connect conn));;
  emit EvCursor;;
  try_finally
    (try_except (show_body conn warehouse) is_programming_error
       (λ exc,
          emit (EvWarning unavailable_warning);;
          emit (EvCaption ("Snowflake error: " +:+ exn_msg exc));;
          mret empty_frame))
    (emit EvClose).

Definition fallback_sql : string :=
"
    SELECT
      QUERY_ID,
      USER_NAME,
      WAREHOUSE_NAME,
      START_TIME,
      TOTAL_ELAPSED_TIME,
      EXECUTION_STATUS,
      QUERY_TEXT
    FROM TABLE(
      INFORMATION_SCHEMA.QUERY_HISTORY(
        END_TIME_RANGE_START=>DATEADD('minute', -%(minutes)s, CURRENT_TIMESTAMP())
      )
    )
    WHERE WAREHOUSE_NAME = %(warehouse)s
      AND END_TIME IS NULL
    ORDER BY START_TIME DESC
    ".

(** Lines 113-133. *)
Definition run_running_queries_fallback (conn : Connection)
    (warehouse : string) (minutes : nat) : M DataFrame :=
  let binds := [("warehouse", PStr warehouse); ("minutes", PInt minutes)] in
  call (EvRunQuery fallback_sql binds) (run_query conn fallback_sql binds).

(** [running_df[running_df["execution_status"] == "RUNNING"]], applied only
    if the column is present. *)
Definition keep_running (df : DataFrame) : DataFrame :=
  match col_index "execution_status" (columns df) with
  | Some i => select_eq i "RUNNING" df
  | None => df
  end.

Definition index_error : exn :=
  {| exn_cls := OtherException; exn_msg := "list index out of range" |}.

(** [warehouses[0]] *)
Definition first_warehouse (ws : list string) : M string :=
  match ws with
  | w :: _ => mret w
  | [] => ([], inl index_error)
  end.

(** [warehouses and "ALL" not in warehouses and len(warehouses) == 1] *)
Definition single_warehouse (ws : list string) : bool :=
  Filters.wh_selected ws && bool_decide (length ws = 1).

(** Lines 296-306. *)
Definition running_section (conn : Connection) (ws : list string)
    (fallback_window : nat) : M unit :=
  emit (EvSubheader "Currently Running (SHOW QUERIES)");;
  if single_warehouse ws then
    w ← first_warehouse ws;
    running_df ← run_show_queries conn w;
    let running_df := keep_running running_df in
    running_df ←
      (if df_empty running_df then
         emit (EvInfo "SHOW QUERIES unavailable or empty. Using INFORMATION_SCHEMA fallback.");;
         w' ← first_warehouse ws;
         run_running_queries_fallback conn w' fallback_window
       else mret running_df);
    emit (EvDataframe running_df)
  else
    emit (EvInfo "Select a single warehouse to view running queries.").

(** Events that reach the warehouse. *)
Definition is_query (ev : event) : bool :=
  match ev with
  | EvGetConnection | EvCursor | EvExecute _ _ | EvFetchPandasAll
  | EvClose | EvRunQuery _ _ => true
  | _ => false
  end.

(** The historical query of the fall-back. *)
Definition is_fallback (ev : event) : bool :=
  match ev with
  | EvRunQuery sql _ => bool_decide (sql = fallback_sql)
  | _ => false
  end.

End Live.

(** ** Sorting done outside the script

    The script never sorts by itself: it asks pandas ([sort_values] with the
    default [kind], which is quicksort and promises no order among equal
    keys) and the warehouse ([ORDER BY], where rows with equal keys come in
    an unspecified order). Such a routine is taken by its contract: given a
    total preorder as a boolean test "may stand before", it returns a
    permutation of its input in which every row may stand before every later
    one. Which of the conforming orders it returns is its own business. *)
Record sorter := {
  sort_by : ∀ A : Type, (A → A → bool) → list A → list A;
  sort_by_perm : ∀ A (before : A → A → bool) l, sort_by A before l ≡ₚ l;
  sort_by_sorted : ∀ A (before : A → A → bool),
    (∀ x y, before x y = true ∨ before y x = true) →
    (∀ x y z, before x y = true → before y z = true → before x z = true) →
    ∀ l, StronglySorted (λ x y, before x y = true) (sort_by A before l);
}.

Arguments sort_by _ {A} _ _.

(** ** The Top-10 views (lines 265-277) *)
Module Frames.

(** A row of [base_df], the result of [metric_sql]. A NULL metric arrives
    as a missing value. Numbers are exact rationals. *)
Record MetricRow := {
  QUERY_ID : string;
  USER_NAME : string;
  WAREHOUSE_NAME : option string;
  START_TIME : Z;
  TOTAL_ELAPSED_TIME : option Z;
  BYTES_SCANNED : option Z;
  CREDITS_USED_CLOUD_SERVICES : option Qc;
  QUERY_TEXT : string;
}.

(** The three columns the views sort by. *)
Inductive metric :=
  | ByTotalElapsedTime
  | ByBytesScanned
  | ByCreditsUsedCloudServices.

Definition value (by_ : metric) (r : MetricRow) : option Qc :=
  match by_ with
  | ByTotalElapsedTime => Qc_of_Z <$> TOTAL_ELAPSED_TIME r
  | ByBytesScanned => Qc_of_Z <$> BYTES_SCANNED r
  | ByCreditsUsedCloudServices => CREDITS_USED_CLOUD_SERVICES r
  end.

(** The order of [sort_values(..., ascending=False)] with the default
    [na_position="last"]: larger values first, missing values at the end. *)
Definition desc_na_last (x y : option Qc) : bool :=
  match x, y with
  | Some a, Some b => bool_decide (b ≤ a)%Qc
  | Some _, None => true
  | None, Some _ => false
  | None, None => true
  end.

(** [df.sort_values(by_, ascending=False)] *)
Definition sort_values (s : sorter) (by_ : metric) (df : list MetricRow)
    : list MetricRow :=
  sort_by s (λ r1 r2, desc_na_last (value by_ r1) (value by_ r2)) df.

(** [df.head(n)] *)
Definition head (n : nat) (df : list MetricRow) : list MetricRow := take n df.

(** [base_df.sort_values(by_, ascending=False).head(10)] *)
Definition top10 (s : sorter) (by_ : metric) (base_df : list MetricRow)
    : list MetricRow :=
  head 10 (sort_values s by_ base_df).

End Frames.

(** ** The meaning of [raw_sql] and [cost_sql]

    Tables are lists of rows; a NULL is [None]; timestamps are seconds since
    the epoch; numbers are exact (integers and rationals). The WHERE clauses
    built from the sidebar are taken as row tests. *)
Module Sql.

(** [SNOWFLAKE.ACCOUNT_USAGE.QUERY_HISTORY], the columns the script reads. *)
Record QueryHistory := {
  QUERY_ID : string;
  USER_NAME : string;
  WAREHOUSE_NAME : option string;
  DATABASE_NAME : option string;
  SCHEMA_NAME : option string;
  START_TIME : Z;
  END_TIME : option Z;
  TOTAL_ELAPSED_TIME : Z;
  BYTES_SCANNED : option Z;
  ROWS_PRODUCED : option Z;
  EXECUTION_STATUS : string;
  QUERY_TAG : option string;
  QUERY_TEXT : string;
}.

(** [SNOWFLAKE.ACCOUNT_USAGE.WAREHOUSE_METERING_HISTORY] *)
Record Metering := {
  M_START_TIME : Z;
  M_WAREHOUSE_NAME : string;
  M_CREDITS_USED : Qc;
}.

(** [DATE_TRUNC('hour', t)] *)
Definition date_trunc_hour (t : Z) : Z := (t `div` 3600 * 3600)%Z.

(** [a = b] as a join or filter condition: true only when both sides are
    present and equal. *)
Definition sql_eq `{EqDecision A} (a b : option A) : bool :=
  match a, b with
  | Some x, Some y => bool_decide (x = y)
  | _, _ => false
  end.

(** [NULLIF(a, z)] *)
Definition nullif (a : option Z) (z : Z) : option Z :=
  match a with
  | Some x => if bool_decide (x = z) then None else Some x
  | None => None
  end.

Inductive sql_error := DivisionByZero.

Inductive result (A : Type) :=
  | Ok (a : A)
  | Failed (e : sql_error).
Arguments Ok {A} a.
Arguments Failed {A} e.

(** [a / b]: NULL when an operand is NULL, an error when the divisor is 0. *)
Definition sql_div (a b : option Z) : result (option Qc) :=
  match a, b with
  | Some x, Some y =>
      if bool_decide (y = 0%Z) then Failed DivisionByZero
      else Ok (Some (Qc_of_Z x / Qc_of_Z y)%Qc)
  | _, _ => Ok None
  end.

(** [a * b] *)
Definition sql_mul (a b : option Qc) : option Qc :=
  match a, b with
  | Some x, Some y => Some (x * y)%Qc
  | _, _ => None
  end.

(** Evaluating the select list row by row; the first error aborts. *)
Fixpoint select {A B} (f : A → result B) (l : list A) : result (list B) :=
  match l with
  | [] => Ok []
  | x :: l' =>
      match f x with
      | Failed e => Failed e
      | Ok y =>
          match select f l' with
          | Failed e => Failed e
          | Ok ys => Ok (y :: ys)
          end
      end
  end.

(** [GROUP BY key]: one group per distinct key, holding its rows. *)
Definition group_by {R K} `{EqDecision K} (key : R → K) (l : list R)
    : list (K * list R) :=
  (λ k, (k, filter (λ r, key r = k) l)) <$> remove_dups (key <$> l).

(** [l LEFT JOIN r ON on]: every match of a left row, or the left row alone
    when it has none. *)
Definition left_join {A B} (on : A → B → bool) (l : list A) (r : list B)
    : list (A * option B) :=
  a ← l;
  match filter (λ b, on a b = true) r with
  | [] => [(a, None)]
  | b :: bs => (λ b, (a, Some b)) <$> (b :: bs)
  end.

Definition sumZ (l : list Z) : Z := foldr Z.add 0%Z l.
Definition sumQc (l : list Qc) : Qc := foldr Qcplus 0%Qc l.

(** [ORDER BY k DESC] on a column without NULLs. *)
Definition desc (x y : Z) : bool := bool_decide (y ≤ x)%Z.

(** [ORDER BY k DESC] on a nullable column, with the warehouse's default
    NULL ordering: a NULL counts as larger than every value, so in
    descending order the NULLs come first. *)
Definition desc_nulls_first (x y : option Qc) : bool :=
  match x, y with
  | None, _ => true
  | Some _, None => false
  | Some a, Some b => bool_decide (b ≤ a)%Qc
  end.

(** *** [raw_sql] (lines 309-328): all thirteen columns,
    [WHERE base_where ORDER BY START_TIME DESC LIMIT 500]. *)
Definition raw_sql (s : sorter) (base_where : QueryHistory → bool)
    (QUERY_HISTORY : list QueryHistory) : list QueryHistory :=
  take 500
    (sort_by s (λ r1 r2, desc (START_TIME r1) (START_TIME r2))
       (filter (λ r, base_where r = true) QUERY_HISTORY)).

(** *** [cost_sql] (lines 378-424) *)

(** A row of the CTE [q]. *)
Record QRow := {
  q_QUERY_ID : string;
  q_USER_NAME : string;
  q_WAREHOUSE_NAME : option string;
  q_START_TIME : Z;
  q_HOUR : Z;
  q_TOTAL_ELAPSED_TIME : Z;
  q_QUERY_TEXT : string;
}.

Definition cte_q (base_where : QueryHistory → bool)
    (QUERY_HISTORY : list QueryHistory) : list QRow :=
  (λ r, {| q_QUERY_ID := QUERY_ID r;
           q_USER_NAME := USER_NAME r;
           q_WAREHOUSE_NAME := WAREHOUSE_NAME r;
           q_START_TIME := START_TIME r;
           q_HOUR := date_trunc_hour (START_TIME r);
           q_TOTAL_ELAPSED_TIME := TOTAL_ELAPSED_TIME r;
           q_QUERY_TEXT := QUERY_TEXT r |})
  <$> filter (λ r, base_where r = true ∧ WAREHOUSE_NAME r ≠ None) QUERY_HISTORY.

(** A row of the CTE [wh]. *)
Record WhRow := {
  wh_HOUR : Z;
  wh_WAREHOUSE_NAME : string;
  wh_CREDITS_USED : Qc;
}.

Definition cte_wh (metering_where : Metering → bool)
    (WAREHOUSE_METERING_HISTORY : list Metering) : list WhRow :=
  (λ g, {| wh_HOUR := g.1.1;
           wh_WAREHOUSE_NAME := g.1.2;
           wh_CREDITS_USED := sumQc (M_CREDITS_USED <$> g.2) |})
  <$> group_by (λ m, (date_trunc_hour (M_START_TIME m), M_WAREHOUSE_NAME m))
        (filter (λ m, metering_where m = true) WAREHOUSE_METERING_HISTORY).

(** A row of the CTE [totals]. *)
Record TotalsRow := {
  t_HOUR : Z;
  t_WAREHOUSE_NAME : option string;
  t_TOTAL_MS : Z;
}.

Definition cte_totals (q : list QRow) : list TotalsRow :=
  (λ g, {| t_HOUR := g.1.1;
           t_WAREHOUSE_NAME := g.1.2;
           t_TOTAL_MS := sumZ (q_TOTAL_ELAPSED_TIME <$> g.2) |})
  <$> group_by (λ x, (q_HOUR x, q_WAREHOUSE_NAME x)) q.

(** A row of the result. *)
Record CostRow := {
  c_QUERY_ID : string;
  c_USER_NAME : string;
  c_WAREHOUSE_NAME : option string;
  c_START_TIME : Z;
  c_TOTAL_ELAPSED_TIME : Z;
  c_QUERY_TEXT : string;
  c_CREDITS_USED : option Qc;
  c_ESTIMATED_CREDITS : option Qc;
}.

(** [ON q.HOUR = t.HOUR AND q.WAREHOUSE_NAME = t.WAREHOUSE_NAME] *)
Definition on_totals (x : QRow) (t : TotalsRow) : bool :=
  bool_decide (q_HOUR x = t_HOUR t)
  && sql_eq (q_WAREHOUSE_NAME x) (t_WAREHOUSE_NAME t).

(** [ON q.HOUR = wh.HOUR AND q.WAREHOUSE_NAME = wh.WAREHOUSE_NAME] *)
Definition on_wh (xt : QRow * option TotalsRow) (w : WhRow) : bool :=
  bool_decide (q_HOUR xt.1 = wh_HOUR w)
  && sql_eq (q_WAREHOUSE_NAME xt.1) (Some (wh_WAREHOUSE_NAME w)).

(** The select list, on one joined row. *)
Definition cost_row (j : QRow * option TotalsRow * option WhRow) : result CostRow :=
  let '(x, t, w) := j in
  let credits := wh_CREDITS_USED <$> w in
  match sql_div (Some (q_TOTAL_ELAPSED_TIME x)) (nullif (t_TOTAL_MS <$> t) 0) with
  | Failed e => Failed e
  | Ok share =>
      Ok {| c_QUERY_ID := q_QUERY_ID x;
            c_USER_NAME := q_USER_NAME x;
            c_WAREHOUSE_NAME := q_WAREHOUSE_NAME x;
            c_START_TIME := q_START_TIME x;
            c_TOTAL_ELAPSED_TIME := q_TOTAL_ELAPSED_TIME x;
            c_QUERY_TEXT := q_QUERY_TEXT x;
            c_CREDITS_USED := credits;
            c_ESTIMATED_CREDITS := sql_mul share credits |}
  end.

(** The query up to its select list, before ORDER BY and LIMIT. *)
Definition cost_select (base_where : QueryHistory → bool)
    (metering_where : Metering → bool)
    (QUERY_HISTORY : list QueryHistory)
    (WAREHOUSE_METERING_HISTORY : list Metering) : result (list CostRow) :=
  let q := cte_q base_where QUERY_HISTORY in
  let wh := cte_wh metering_where WAREHOUSE_METERING_HISTORY in
  let totals := cte_totals q in
  select cost_row (left_join on_wh (left_join on_totals q totals) wh).

(** [... ORDER BY ESTIMATED_CREDITS DESC LIMIT 50] *)
Definition cost_sql (s : sorter) (base_where : QueryHistory → bool)
    (metering_where : Metering → bool)
    (QUERY_HISTORY : list QueryHistory)
    (WAREHOUSE_METERING_HISTORY : list Metering) : result (list CostRow) :=
  match cost_select base_where metering_where QUERY_HISTORY
          WAREHOUSE_METERING_HISTORY with
  | Failed e => Failed e
  | Ok rows =>
      Ok (take 50
            (sort_by s
               (λ r1 r2, desc_nulls_first (c_ESTIMATED_CREDITS r1)
                                          (c_ESTIMATED_CREDITS r2))
               rows))
  end.

End Sql.

(** * Terms of the properties and sample inputs *)

(** Decimal numerals contain digits only. *)
Definition is_digit (c : ascii) : bool :=
  bool_decide (c ∈ ["0"; "1"; "2"; "3"; "4"; "5"; "6"; "7"; "8"; "9"]%char).

(** ** The filter builder *)
Module FiltersTerms.
Import Filters.

Definition inp1 : Sidebar :=
  {| start_ts := "2024-01-01 00:00:00"; end_ts := "2024-01-07 23:59:59.999999";
     warehouses := ["WH_A"; "WH_B"]; fallback_window := 60;
     user_filter := "ALICE"; query_tag := EmptyString |}.

(** The IN-list clause for [n] selected warehouses. *)
Definition wh_clause (n : nat) : string :=
  "WAREHOUSE_NAME IN (" +:+ join ", " (placeholder <$> (wh_key <$> seq 0 n)) +:+ ")".

Definition when {A} (b : bool) (l : list A) : list A := if b then l else [].

Definition base_params (inp : Sidebar) : gmap string string :=
  <["end_ts" := end_ts inp]> (<["start_ts" := start_ts inp]> ∅).

Definition insert_when (b : bool) (k v : string) (m : gmap string string) :=
  if b then <[k := v]> m else m.

(** Two sidebar states have the same shape when they agree on which filter
    dimensions are active and on the number of selected warehouses; the
    values themselves (dates, names, texts) are free. *)
Definition same_shape (a b : Sidebar) : Prop :=
  length (warehouses a) = length (warehouses b)
  ∧ ("ALL" ∈ warehouses a ↔ "ALL" ∈ warehouses b)
  ∧ truthy (user_filter a) = truthy (user_filter b)
  ∧ truthy (query_tag a) = truthy (query_tag b).

(** A selection the text inputs leave blank but not empty. *)
Definition blank_inp : Sidebar :=
  {| start_ts := "2024-01-01 00:00:00"; end_ts := "2024-01-07 23:59:59.999999";
     warehouses := ["ALL"]; fallback_window := 60;
     user_filter := " "; query_tag := "  " |}.

End FiltersTerms.

(** ** The live-queries path *)
Module LiveTerms.
Import Live.

(** The role lacks MONITOR: the first [execute] raises a ProgrammingError. *)
Definition denied : exn :=
  {| exn_cls := ProgrammingError;
     exn_msg := "003001 (42501): SQL access control error: Insufficient privileges" |}.

(** The network is gone: the first [execute] raises an OperationalError. *)
Definition unreachable : exn :=
  {| exn_cls := OperationalError;
     exn_msg := "250003: Failed to execute request: connection reset" |}.

Definition history_frame : DataFrame :=
  {| columns := ["QUERY_ID"; "EXECUTION_STATUS"];
     rows := [["01b2"; "RUNNING"]] |}.

Definition conn_raising (e : exn) : Connection :=
  {| connect := None;
     execute := λ _ _, Some e;
     fetch_pandas_all := inr empty_frame;
     run_query := λ _ _, inr history_frame |}.

(** SHOW QUERIES answers with one finished and one running query. *)
Definition conn_live : Connection :=
  {| connect := None;
     execute := λ _ _, None;
     fetch_pandas_all :=
       inr {| columns := ["query_id"; "execution_status"];
              rows := [["01a1"; "SUCCESS"]; ["01a2"; "RUNNING"]] |};
     run_query := λ _ _, inr history_frame |}.

End LiveTerms.

(** ** Insertion sort, the sample sorting routine *)
Module Sorting.

Fixpoint insert_by {A} (before : A → A → bool) (x : A) (l : list A) : list A :=
  match l with
  | [] => [x]
  | y :: l' => if before x y then x :: y :: l' else y :: insert_by before x l'
  end.

(** Insertion sort: among rows with equal keys the earlier stays first. *)
Definition insertion_sort {A} (before : A → A → bool) (l : list A) : list A :=
  foldr (insert_by before) [] l.

End Sorting.

(** ** The Top-10 views *)
Module FramesTerms.
Import Frames.

Definition row (id : string) (elapsed bytes : Z) : MetricRow :=
  {| QUERY_ID := id; USER_NAME := "ALICE"; WAREHOUSE_NAME := Some "WH1";
     START_TIME := 1704067200; TOTAL_ELAPSED_TIME := Some elapsed;
     BYTES_SCANNED := Some bytes; CREDITS_USED_CLOUD_SERVICES := None;
     QUERY_TEXT := "select 1" |}.

End FramesTerms.

(** ** Cost allocation and raw history *)
Module SqlTerms.
Import Sql.

(** Total elapsed time of the queries of [q] in one (hour, warehouse) group. *)
Definition group_total_ms (q : list QRow) (hour : Z) (wh : option string) : Z :=
  sumZ (q_TOTAL_ELAPSED_TIME
          <$> filter (λ y, (q_HOUR y, q_WAREHOUSE_NAME y) = (hour, wh)) q).

(** The metering rows in scope for one (hour, warehouse) bucket, and the
    bucket's credits: their sum, or nothing when there is no such row. *)
Definition bucket_rows (metering_where : Metering → bool) (M : list Metering)
    (hour : Z) (wh : string) : list Metering :=
  filter (λ m, (date_trunc_hour (M_START_TIME m), M_WAREHOUSE_NAME m) = (hour, wh))
    (filter (λ m, metering_where m = true) M).

Definition bucket_credits (metering_where : Metering → bool) (M : list Metering)
    (hour : Z) (wh : string) : option Qc :=
  match bucket_rows metering_where M hour wh with
  | [] => None
  | rows => Some (sumQc (M_CREDITS_USED <$> rows))
  end.

(** The share of its group's elapsed time a query took: undefined when the
    group total is 0. *)
Definition share (q : list QRow) (x : QRow) : option Qc :=
  let total := group_total_ms q (q_HOUR x) (q_WAREHOUSE_NAME x) in
  if bool_decide (total = 0%Z) then None
  else Some (Qc_of_Z (q_TOTAL_ELAPSED_TIME x) / Qc_of_Z total)%Qc.

Definition credits_of (metering_where : Metering → bool) (M : list Metering)
    (x : QRow) : option Qc :=
  w ← q_WAREHOUSE_NAME x; bucket_credits metering_where M (q_HOUR x) w.

(** The result row of one query, written without joins. *)
Definition allocation (q : list QRow) (metering_where : Metering → bool)
    (M : list Metering) (x : QRow) : CostRow :=
  {| c_QUERY_ID := q_QUERY_ID x;
     c_USER_NAME := q_USER_NAME x;
     c_WAREHOUSE_NAME := q_WAREHOUSE_NAME x;
     c_START_TIME := q_START_TIME x;
     c_TOTAL_ELAPSED_TIME := q_TOTAL_ELAPSED_TIME x;
     c_QUERY_TEXT := q_QUERY_TEXT x;
     c_CREDITS_USED := credits_of metering_where M x;
     c_ESTIMATED_CREDITS := sql_mul (share q x) (credits_of metering_where M x) |}.

(** Sample tables: midnight of 2024-01-01 is 1704067200. *)
Definition query (id : string) (start elapsed : Z) : QueryHistory :=
  {| QUERY_ID := id; USER_NAME := "ALICE"; WAREHOUSE_NAME := Some "WH1";
     DATABASE_NAME := None; SCHEMA_NAME := None;
     START_TIME := start; END_TIME := Some (start + 1)%Z;
     TOTAL_ELAPSED_TIME := elapsed;
     BYTES_SCANNED := None; ROWS_PRODUCED := None;
     EXECUTION_STATUS := "SUCCESS"; QUERY_TAG := None;
     QUERY_TEXT := "select 1" |}.

Definition credits (start : Z) (c : Z) : Metering :=
  {| M_START_TIME := start; M_WAREHOUSE_NAME := "WH1";
     M_CREDITS_USED := Qc_of_Z c |}.

Definition everything {A} (_ : A) : bool := true.

(** The identifiers and estimates of a result, the latter as fractions in
    lowest terms. *)
Definition estimates (r : result (list CostRow)) : list (string * option Q) :=
  match r with
  | Ok rows => (λ r, (c_QUERY_ID r, this <$> c_ESTIMATED_CREDITS r)) <$> rows
  | Failed _ => []
  end.

(** The rows of one group among the result rows. *)
Definition in_group (hour : Z) (wh : string) (r : CostRow) : Prop :=
  (date_trunc_hour (c_START_TIME r), c_WAREHOUSE_NAME r) = (hour, Some wh).

#[global] Instance in_group_dec hour wh r : Decision (in_group hour wh r).
Proof. unfold in_group. apply _. Defined.

(** The two-row history of the counterexample: a query of 0 ms alone in its
    hour, and a query of 100 ms one hour later with a bucket of 4 credits. *)
Definition null_history : list QueryHistory :=
  [query "zero" 1704067210 0; query "busy" 1704070810 100].
Definition null_metering : list Metering := [credits 1704070800 4].

(** Undefined estimates placed last, as the claim has it. *)
Definition undefined_last (rows : list CostRow) : Prop :=
  ∀ i j r1 r2, i < j → rows !! i = Some r1 → rows !! j = Some r2 →
    c_ESTIMATED_CREDITS r1 = None → c_ESTIMATED_CREDITS r2 = None.

End SqlTerms.

(** * The rest of the script *)

(** ** The SQL texts sent by the two tabs

    Each text is the f-string of the script, character for character; the
    pieces between braces are the values computed by [Filters]. *)
Module SqlText.
Import Filters.

(** Line 11. *)
Definition LONG_RUNNING_MS : nat := 10 * 60 * 1000.

(** Lines 231-239. *)
Definition status_sql (inp : Sidebar) : string :=
  "
    SELECT
      EXECUTION_STATUS,
      COUNT(*) AS QUERY_COUNT
    FROM SNOWFLAKE.ACCOUNT_USAGE.QUERY_HISTORY
    WHERE "
  +:+ base_where inp
  +:+ "
    GROUP BY 1
    ORDER BY QUERY_COUNT DESC
    ".

(** Lines 249-262. *)
Definition metric_sql (inp : Sidebar) : string :=
  "
    SELECT
      QUERY_ID,
      USER_NAME,
      WAREHOUSE_NAME,
      START_TIME,
      TOTAL_ELAPSED_TIME,
      BYTES_SCANNED,
      CREDITS_USED_CLOUD_SERVICES,
      QUERY_TEXT
    FROM SNOWFLAKE.ACCOUNT_USAGE.QUERY_HISTORY
    WHERE "
  +:+ base_where inp
  +:+ "
    ".

(** Lines 280-293. *)
Definition long_sql (inp : Sidebar) : string :=
  "
    SELECT
      QUERY_ID,
      USER_NAME,
      WAREHOUSE_NAME,
      START_TIME,
      TOTAL_ELAPSED_TIME,
      EXECUTION_STATUS,
      QUERY_TEXT
    FROM SNOWFLAKE.ACCOUNT_USAGE.QUERY_HISTORY
    WHERE "
  +:+ base_where inp
  +:+ "
      AND TOTAL_ELAPSED_TIME >= "
  +:+ pretty LONG_RUNNING_MS
  +:+ "
    ORDER BY TOTAL_ELAPSED_TIME DESC
    ".

(** Lines 309-328. *)
Definition raw_sql (inp : Sidebar) : string :=
  "
    SELECT
      QUERY_ID,
      USER_NAME,
      WAREHOUSE_NAME,
      DATABASE_NAME,
      SCHEMA_NAME,
      START_TIME,
      END_TIME,
      TOTAL_ELAPSED_TIME,
      BYTES_SCANNED,
      ROWS_PRODUCED,
      EXECUTION_STATUS,
      QUERY_TAG,
      QUERY_TEXT
    FROM SNOWFLAKE.ACCOUNT_USAGE.QUERY_HISTORY
    WHERE "
  +:+ base_where inp
  +:+ "
    ORDER BY START_TIME DESC
    LIMIT 500
    ".

(** Lines 337-348. *)
Definition wh_hour_sql (inp : Sidebar) : string :=
  "
    SELECT
      DATE_TRUNC('hour', START_TIME) AS HOUR,
      WAREHOUSE_NAME,
      SUM(CREDITS_USED) AS CREDITS_USED
    FROM SNOWFLAKE.ACCOUNT_USAGE.WAREHOUSE_METERING_HISTORY
    WHERE START_TIME >= %(start_ts)s
      AND START_TIME <= %(end_ts)s
      "
  +:+ wh_filter_sql inp
  +:+ "
    GROUP BY 1, 2
    ORDER BY 1 DESC
    ".

(** Lines 357-368. *)
Definition wh_day_sql (inp : Sidebar) : string :=
  "
    SELECT
      DATE_TRUNC('day', START_TIME) AS DAY,
      WAREHOUSE_NAME,
      SUM(CREDITS_USED) AS CREDITS_USED
    FROM SNOWFLAKE.ACCOUNT_USAGE.WAREHOUSE_METERING_HISTORY
    WHERE START_TIME >= %(start_ts)s
      AND START_TIME <= %(end_ts)s
      "
  +:+ wh_filter_sql inp
  +:+ "
    GROUP BY 1, 2
    ORDER BY 1 DESC
    ".

(** Lines 378-424. *)
Definition cost_sql (inp : Sidebar) : string :=
  "
    WITH q AS (
      SELECT
        QUERY_ID,
        USER_NAME,
        WAREHOUSE_NAME,
        START_TIME,
        DATE_TRUNC('hour', START_TIME) AS HOUR,
        TOTAL_ELAPSED_TIME,
        QUERY_TEXT
      FROM SNOWFLAKE.ACCOUNT_USAGE.QUERY_HISTORY
      WHERE "
  +:+ base_where inp
  +:+ "
        AND WAREHOUSE_NAME IS NOT NULL
    ),
    wh AS (
      SELECT
        DATE_TRUNC('hour', START_TIME) AS HOUR,
        WAREHOUSE_NAME,
        SUM(CREDITS_USED) AS CREDITS_USED
      FROM SNOWFLAKE.ACCOUNT_USAGE.WAREHOUSE_METERING_HISTORY
      WHERE START_TIME >= %(start_ts)s
        AND START_TIME <= %(end_ts)s
        "
  +:+ wh_filter_sql inp
  +:+ "
      GROUP BY 1, 2
    ),
    totals AS (
      SELECT HOUR, WAREHOUSE_NAME, SUM(TOTAL_ELAPSED_TIME) AS TOTAL_MS
      FROM q
      GROUP BY 1, 2
    )
    SELECT
      q.QUERY_ID,
      q.USER_NAME,
      q.WAREHOUSE_NAME,
      q.START_TIME,
      q.TOTAL_ELAPSED_TIME,
      q.QUERY_TEXT,
      wh.CREDITS_USED,
      (q.TOTAL_ELAPSED_TIME / NULLIF(t.TOTAL_MS, 0)) * wh.CREDITS_USED AS ESTIMATED_CREDITS
    FROM q
    LEFT JOIN totals t
      ON q.HOUR = t.HOUR AND q.WAREHOUSE_NAME = t.WAREHOUSE_NAME
    LEFT JOIN wh
      ON q.HOUR = wh.HOUR AND q.WAREHOUSE_NAME = wh.WAREHOUSE_NAME
    ORDER BY ESTIMATED_CREDITS DESC
    LIMIT 50
    ".

(** The calls [run_query(sql, params)] of the Overview and Cost Monitor
    tabs, in the order of the script, each with the bindings it passes. *)
Definition queries (inp : Sidebar) : list (string * gmap string string) :=
  [(status_sql inp, params inp);
   (metric_sql inp, params inp);
   (long_sql inp, params inp);
   (raw_sql inp, params inp);
   (wh_hour_sql inp, cost_params inp);
   (wh_day_sql inp, cost_params inp);
   (cost_sql inp, cost_params inp)].

(** A text is ready for pyformat binding with [p]: each of its percent
    signs opens a named placeholder, and every placeholder has a binding. *)
Definition bindable (sql : string) (p : gmap string string) : Prop :=
  count_char "%" sql = length (placeholders sql)
  ∧ ∀ k, k ∈ placeholders sql → is_Some (p !! k).

End SqlText.

(** ** The other views, as relations

    The meaning of [status_sql], [long_sql], [wh_hour_sql] and [wh_day_sql],
    with the conventions of [Sql]. *)
Module Views.
Import Sql.

(** A row of the status overview. *)
Record StatusRow := {
  s_EXECUTION_STATUS : string;
  s_QUERY_COUNT : nat;
}.

(** [status_sql] (lines 231-239):
    the status and the number of rows having it,
    [... WHERE base_where GROUP BY 1 ORDER BY QUERY_COUNT DESC]. *)
Definition status_sql (s : sorter) (base_where : QueryHistory → bool)
    (QUERY_HISTORY : list QueryHistory) : list StatusRow :=
  sort_by s (λ r1 r2, bool_decide (s_QUERY_COUNT r2 ≤ s_QUERY_COUNT r1))
    ((λ g, {| s_EXECUTION_STATUS := g.1; s_QUERY_COUNT := length g.2 |})
     <$> group_by EXECUTION_STATUS
           (filter (λ r, base_where r = true) QUERY_HISTORY)).

(** A row of the long-running view. *)
Record LongRow := {
  l_QUERY_ID : string;
  l_USER_NAME : string;
  l_WAREHOUSE_NAME : option string;
  l_START_TIME : Z;
  l_TOTAL_ELAPSED_TIME : Z;
  l_EXECUTION_STATUS : string;
  l_QUERY_TEXT : string;
}.

Definition long_row (r : QueryHistory) : LongRow :=
  {| l_QUERY_ID := QUERY_ID r;
     l_USER_NAME := USER_NAME r;
     l_WAREHOUSE_NAME := WAREHOUSE_NAME r;
     l_START_TIME := START_TIME r;
     l_TOTAL_ELAPSED_TIME := TOTAL_ELAPSED_TIME r;
     l_EXECUTION_STATUS := EXECUTION_STATUS r;
     l_QUERY_TEXT := QUERY_TEXT r |}.

(** [long_sql] (lines 280-293):
    [WHERE base_where AND TOTAL_ELAPSED_TIME >= LONG_RUNNING_MS
     ORDER BY TOTAL_ELAPSED_TIME DESC], without LIMIT. *)
Definition long_sql (s : sorter) (base_where : QueryHistory → bool)
    (QUERY_HISTORY : list QueryHistory) : list LongRow :=
  sort_by s (λ r1 r2, desc (l_TOTAL_ELAPSED_TIME r1) (l_TOTAL_ELAPSED_TIME r2))
    (long_row
     <$> filter (λ r, base_where r = true
                      ∧ (Z.of_nat SqlText.LONG_RUNNING_MS ≤ TOTAL_ELAPSED_TIME r)%Z)
           QUERY_HISTORY).

(** [DATE_TRUNC('day', t)] *)
Definition date_trunc_day (t : Z) : Z := (t `div` 86400 * 86400)%Z.

(** A row of the hourly or daily credits table: [HOUR] or [DAY],
    [WAREHOUSE_NAME], [CREDITS_USED]. *)
Record CreditRow := {
  b_BUCKET : Z;
  b_WAREHOUSE_NAME : string;
  b_CREDITS_USED : Qc;
}.

(** The two metering texts differ in the unit of [DATE_TRUNC] only:
    [SELECT DATE_TRUNC(unit, START_TIME), WAREHOUSE_NAME, SUM(CREDITS_USED)
     ... WHERE <time range and warehouse filter> GROUP BY 1, 2
     ORDER BY 1 DESC]. *)
Definition credits_by (trunc : Z → Z) (s : sorter) (metering_where : Metering → bool)
    (WAREHOUSE_METERING_HISTORY : list Metering) : list CreditRow :=
  sort_by s (λ r1 r2, desc (b_BUCKET r1) (b_BUCKET r2))
    ((λ g, {| b_BUCKET := g.1.1;
              b_WAREHOUSE_NAME := g.1.2;
              b_CREDITS_USED := sumQc (M_CREDITS_USED <$> g.2) |})
     <$> group_by (λ m, (trunc (M_START_TIME m), M_WAREHOUSE_NAME m))
           (filter (λ m, metering_where m = true) WAREHOUSE_METERING_HISTORY)).

(** [wh_hour_sql] (lines 337-348) *)
Definition wh_hour_sql := credits_by date_trunc_hour.

(** [wh_day_sql] (lines 357-368) *)
Definition wh_day_sql := credits_by date_trunc_day.

(** [if not df.empty: st.line_chart / st.bar_chart (...)]: a chart is drawn
    only for a result with rows. *)
Definition charted {A} (rows : list A) : bool := bool_decide (rows ≠ []).

End Views.

(** ** The query executor

    [run_query] (lines 64-73), in the monad of [Live]: the same calls on the
    connection as [run_show_queries], without an [except] clause. *)
Module Executor.
Import Live.

(** [params or {}]: [None] and the empty dict both give the empty dict. *)
Definition or_empty (params : option (list (string * pyval))) :
    list (string * pyval) :=
  match params with
  | Some (b :: p) => b :: p
  | Some [] | None => []
  end.

(** Lines 64-73. *)
Definition run_query (conn : Connection) (sql : string)
    (params : option (list (string * pyval))) : M DataFrame :=
  call EvGetConnection (check (connect conn));;
  emit EvCursor;;
  try_finally
    (call (EvExecute sql (or_empty params))
       (check (execute conn sql (or_empty params)));;
     call EvFetchPandasAll (fetch_pandas_all conn))
    (emit EvClose).

(** The use of cursors along a trace: a cursor is opened only while none is
    open, statements are executed and results fetched only on an open
    cursor, and [close] is called only on an open cursor. [cursor_use open t]
    is the state after [t], or [None] once [t] broke the rule. *)
Fixpoint cursor_use (open : bool) (t : list event) : option bool :=
  match t with
  | [] => Some open
  | ev :: t' =>
      match ev with
      | EvCursor => if open then None else cursor_use true t'
      | EvExecute _ _ | EvFetchPandasAll =>
          if open then cursor_use true t' else None
      | EvClose => if open then cursor_use false t' else None
      | _ => cursor_use open t'
      end
  end.

(** A trace that starts without a cursor, keeps the rule and leaves no
    cursor open. *)
Definition cursors_closed (t : list event) : bool :=
  bool_decide (cursor_use false t = Some false).

(** Events shown on the page. *)
Definition is_page (ev : event) : bool :=
  match ev with
  | EvSubheader _ | EvWarning _ | EvCaption _ | EvInfo _ | EvDataframe _ => true
  | _ => false
  end.

End Executor.

(** ** The warehouse options of the sidebar (lines 169-183) *)
Module Options.

(** Line 10. *)
Definition DEFAULT_WAREHOUSE : string := "FIVETRAN_WAREHOUSE".

(** [os.getenv("SNOWFLAKE_WAREHOUSE", DEFAULT_WAREHOUSE)]: the value of the
    variable when it is set, even to the empty text. *)
Definition default_wh (SNOWFLAKE_WAREHOUSE : option string) : string :=
  default DEFAULT_WAREHOUSE SNOWFLAKE_WAREHOUSE.

(** How the call [list_warehouses()] ends: with the names, with an
    exception of class [Exception] (any error of the connector), or with the
    script stopped by [st.stop()] in [get_connection], which is signalled by
    a [BaseException] that [except Exception] lets through. *)
Inductive listing :=
  | Listed (names : list string)
  | Raised (e : Live.exn)
  | Stopped.

(** Inserting the keys [l], one after the other, into a dict whose keys are
    [keys]: a key already present keeps its place. *)
Definition insert_keys (keys l : list string) : list string :=
  foldl (λ keys k, if bool_decide (k ∈ keys) then keys else keys ++ [k]) keys l.

(** [list(dict.fromkeys(l))]: the keys in the order of their first
    insertion. *)
Definition fromkeys (l : list string) : list string := insert_keys [] l.

(** Lines 170-177; [None] when the script was stopped. *)
Definition wh_options (default_wh : string) (listed : listing) :
    option (list string) :=
  let finish (wh_options : list string) :=
    let wh_options :=
      if bool_decide (default_wh ∈ wh_options) then wh_options
      else wh_options ++ [default_wh] in
    fromkeys wh_options in
  match listed with
  | Listed names => Some (finish (["ALL"] ++ names))
  | Raised _ => Some (finish (["ALL"] ++ [default_wh]))
  | Stopped => None
  end.

(** Line 181: [[default_wh] if default_wh in wh_options else [wh_options[0]]] *)
Definition default_selection (default_wh : string) (wh_options : list string) :
    Live.exn + list string :=
  if bool_decide (default_wh ∈ wh_options) then inr [default_wh]
  else match wh_options with
       | o :: _ => inr [o]
       | [] => inl Live.index_error
       end.

End Options.

(** ** Configuration and start-up (lines 17-62)

    A dict is kept as its items in insertion order, each key once. Of a
    value the script only asks whether it is truthy; the values it writes
    itself are texts. *)
Module Config.

Inductive value :=
  | Str (s : string)
  | NonStr (truth : bool).

(** [bool(v)] *)
Definition truth (v : value) : bool :=
  match v with
  | Str s => truthy s
  | NonStr b => b
  end.

Definition dict : Type := list (string * value).

(** [d.get(k)]: the first binding of [k]. *)
Fixpoint dict_get (k : string) (d : dict) : option value :=
  match d with
  | [] => None
  | (k', v) :: d' => if bool_decide (k' = k) then Some v else dict_get k d'
  end.

(** [d[k] = v]: a key already present keeps its place. *)
Fixpoint dict_set (k : string) (v : value) (d : dict) : dict :=
  match d with
  | [] => [(k, v)]
  | (k', v') :: d' =>
      if bool_decide (k' = k) then (k, v) :: d' else (k', v') :: dict_set k v d'
  end.

(** [d.update(d')] *)
Definition dict_update (d d' : dict) : dict :=
  foldl (λ d kv, dict_set kv.1 kv.2 d) d d'.

(** What is found at [config.json], in the states in which [load_config]
    returns: no file; a file that [open] or [json.load] refuses with an
    [OSError] or a [JSONDecodeError]; or a document, which is a JSON object
    or some falsy value such as [null] ([None] here). The states in which
    [load_config] raises are added by [ConfigFile]. *)
Inductive config_file :=
  | NoFile
  | Unreadable
  | Document (d : option dict).

Definition unreadable_warning : string :=
  "Could not read config.json. Falling back to environment variables.".

(** Lines 44-52: [os.getenv(name, "")] for the seven names. *)
Definition env_override (getenv : string → option string) :
    list (string * string) :=
  [("account", default EmptyString (getenv "SNOWFLAKE_ACCOUNT"));
   ("user", default EmptyString (getenv "SNOWFLAKE_USER"));
   ("password", default EmptyString (getenv "SNOWFLAKE_PASSWORD"));
   ("warehouse", default EmptyString (getenv "SNOWFLAKE_WAREHOUSE"));
   ("database", default EmptyString (getenv "SNOWFLAKE_DATABASE"));
   ("schema", default EmptyString (getenv "SNOWFLAKE_SCHEMA"));
   ("role", default EmptyString (getenv "SNOWFLAKE_ROLE"))].

(** Lines 56-58. *)
Definition apply_env (merged : dict) (env : list (string * string)) : dict :=
  foldl (λ merged kv, if truthy kv.2 then dict_set kv.1 (Str kv.2) merged
                      else merged) merged env.

(** Lines 60-61. *)
Definition default_warehouse (merged : dict) : dict :=
  match dict_get "warehouse" merged with
  | Some v =>
      if truth v then merged
      else dict_set "warehouse" (Str Options.DEFAULT_WAREHOUSE) merged
  | None => dict_set "warehouse" (Str Options.DEFAULT_WAREHOUSE) merged
  end.

(** Lines 27-62: the warnings shown and the dict returned. [secrets] is
    [None] when reading [st.secrets] raises, else the [snowflake] section
    (empty when there is none). *)
Definition load_config (file : config_file) (secrets : option dict)
    (getenv : string → option string) : list string * dict :=
  let '(warnings, cfg) :=
    match file with
    | NoFile => ([], [])
    | Unreadable => ([unreadable_warning], [])
    | Document d => ([], default [] d)
    end in
  let secrets_cfg := default [] secrets in
  let merged := dict_update (dict_update [] cfg) secrets_cfg in
  let merged := apply_env merged (env_override getenv) in
  (warnings, default_warehouse merged).

Definition credentials : list string := ["account"; "user"; "password"].

(** Line 20. *)
Definition missing (cfg : dict) : list string :=
  (filter (λ kv, kv.1 ∈ credentials ∧ truth kv.2 = false) cfg).*1.

(** How [get_connection] ends: [st.error] and [st.stop()], or the call of
    [snowflake.connector.connect] with the keyword arguments. *)
Inductive startup :=
  | Stop (error : string)
  | Connect (kwargs : dict).

(** Lines 20-24, on the dict returned by [load_config]. *)
Definition check_config (cfg : dict) : startup :=
  match missing cfg with
  | [] => Connect (filter (λ kv, truth kv.2 = true) cfg)
  | _ :: _ =>
      Stop ("Missing Snowflake credentials (config.json or env vars): "
            +:+ join ", " (missing cfg))
  end.

(** Lines 17-24. *)
Definition get_connection (file : config_file) (secrets : option dict)
    (getenv : string → option string) : list string * startup :=
  let '(warnings, cfg) := load_config file secrets getenv in
  (warnings, check_config cfg).

End Config.

(** Terms of the properties of [Config] and sample inputs. *)
Module ConfigTerms.
Import Config.

(** The dict [cfg] that [load_config] takes from the file. *)
Definition file_cfg (file : config_file) : dict :=
  match file with
  | Document (Some d) => d
  | _ => []
  end.

(** The value the layers below the environment give a key: the one of the
    secrets when they bind the key, else the one of the file's dict [cfg]. *)
Definition below (cfg : dict) (secrets : option dict) (k : string) :
    option value :=
  match dict_get k (default [] secrets) with
  | Some v => Some v
  | None => dict_get k cfg
  end.

(** A key bound to a falsy value. *)
Definition bound_falsy (cfg : dict) (k : string) : Prop :=
  ∃ v, dict_get k cfg = Some v ∧ truth v = false.

Definition no_env : string → option string := λ _, None.

Definition sample_env (name : string) : option string :=
  if bool_decide (name = "SNOWFLAKE_USER") then Some "operator"
  else if bool_decide (name = "SNOWFLAKE_ROLE") then Some EmptyString
  else None.

Definition sample_file : config_file :=
  Document (Some [("account", Str "xy12345"); ("user", Str "monitor");
                  ("password", Str "secret"); ("database", Str "SNOWFLAKE")]).

Definition sample_secrets : option dict :=
  Some [("account", Str EmptyString); ("role", Str "MONITOR")].

End ConfigTerms.

(** ** Every state of [config.json] (lines 27-62)

    [load_config] once more, with the states in which it raises: the
    [except] clause names [OSError] and [JSONDecodeError] only, and
    [merged.update(cfg)] takes whatever document was parsed. *)
Module ConfigFile.
Import Config.

(** A parsed document, by what the script does with it: a falsy one ([null],
    [false], [0], an empty text, array or object) is replaced by [{}]; a
    truthy one goes to [merged.update], which reads it as items (an object,
    or an array of pairs; keys are texts here) or raises (a number, [true],
    a text, an array that is not one of pairs). *)
Inductive document :=
  | Falsy
  | Items (d : dict)
  | Unfit (e : Live.exn).

Inductive file_state :=
  | Missing
  | Parsed (doc : document)
  | Caught
  | Uncaught (e : Live.exn).

(** The value of [cfg] at line 54, by what [merged.update(cfg)] does. *)
Inductive cfg_value :=
  | AsItems (d : dict)
  | Rejected (e : Live.exn).

(** [json.load(f) or {}] *)
Definition or_empty_dict (doc : document) : cfg_value :=
  match doc with
  | Falsy => AsItems []
  | Items d => AsItems d
  | Unfit e => Rejected e
  end.

(** Lines 28-37: the warnings shown, and [cfg] or the exception that leaves
    the [try]. [Missing]: [os.path.isfile] is false. [Caught]: [open] or
    [json.load] raises an [OSError] or a [JSONDecodeError]. [Uncaught e]:
    they raise [e] of another class, such as the [UnicodeDecodeError] of
    bytes that are not UTF-8. *)
Definition read_config (st : file_state) : list string * (Live.exn + cfg_value) :=
  match st with
  | Missing => ([], inr (AsItems []))
  | Parsed doc => ([], inr (or_empty_dict doc))
  | Caught => ([unreadable_warning], inr (AsItems []))
  | Uncaught e => ([], inl e)
  end.

(** Lines 27-62: the warnings shown, and the dict returned or the exception
    raised. *)
Definition load_config (st : file_state) (secrets : option dict)
    (getenv : string → option string) : list string * (Live.exn + dict) :=
  match read_config st with
  | (warnings, inl e) => (warnings, inl e)
  | (warnings, inr cfg) =>
      let secrets_cfg := default [] secrets in
      let env := env_override getenv in
      match cfg with
      | Rejected e => (warnings, inl e)
      | AsItems cfg =>
          let merged := dict_update (dict_update [] cfg) secrets_cfg in
          let merged := apply_env merged env in
          (warnings, inr (default_warehouse merged))
      end
  end.

End ConfigFile.

(** Terms of the properties of [ConfigFile] and sample inputs. *)
Module ConfigFileTerms.
Import Config ConfigFile.

(** The items [merged.update(cfg)] takes from the file. *)
Definition state_cfg (st : file_state) : dict :=
  match st with
  | Parsed (Items d) => d
  | _ => []
  end.

(** The states of [Config.config_file] among all states. *)
Definition of_config_file (file : config_file) : file_state :=
  match file with
  | NoFile => Missing
  | Unreadable => Caught
  | Document None => Parsed Falsy
  | Document (Some d) => Parsed (Items d)
  end.

Definition sample_state : file_state :=
  Parsed (Items [("account", Str "xy12345"); ("user", Str "monitor");
                 ("password", Str "secret"); ("database", Str "SNOWFLAKE")]).

End ConfigFileTerms.

(** * Lemmas and theorems *)

Module FiltersExamples.
Import Filters FiltersTerms.

Example base_where_inp1 :
  base_where inp1 =
  "START_TIME >= %(start_ts)s AND START_TIME <= %(end_ts)s AND WAREHOUSE_NAME IN (%(wh_0)s, %(wh_1)s) AND USER_NAME = %(user_name)s".
Proof. vm_compute. reflexivity. Qed.

Example placeholders_inp1 :
  placeholders (base_where inp1) = ["start_ts"; "end_ts"; "wh_0"; "wh_1"; "user_name"].
Proof. vm_compute. reflexivity. Qed.

Example params_inp1 :
  params inp1 !! "wh_1" = Some "WH_B" ∧ params inp1 !! "user_name" = Some "ALICE"
  ∧ params inp1 !! "query_tag" = None ∧ size (params inp1) = 5.
Proof. vm_compute. done. Qed.

End FiltersExamples.

(** ** Facts about strings and the placeholder scanner *)

(** stdpp blocks the unfolding of string concatenation under [simpl]; the
    texts handled here have literal prefixes, so it is let through. *)
#[local] Arguments String.append !_ _ / : simpl nomatch.
#[local] Arguments Ascii.eqb !_ !_ / : simpl nomatch.

Lemma append_assoc (a b c : string) : (a +:+ b) +:+ c = a +:+ b +:+ c.
Proof. induction a as [|x a IH]; simpl; [done | by f_equal]. Qed.

Lemma append_nil_r (a : string) : a +:+ EmptyString = a.
Proof. induction a as [|x a IH]; simpl; [done | by f_equal]. Qed.

Lemma has_char_app c (a b : string) :
  has_char c (a +:+ b) = has_char c a || has_char c b.
Proof.
  induction a as [|x a IH]; simpl; [done|].
  by rewrite IH, orb_assoc.
Qed.

Lemma count_char_app c (a b : string) :
  count_char c (a +:+ b) = count_char c a + count_char c b.
Proof.
  induction a as [|x a IH]; simpl; [done|].
  rewrite IH. lia.
Qed.

Lemma count_char_absent c (s : string) : has_char c s = false → count_char c s = 0.
Proof.
  induction s as [|x s IH]; simpl; [done|].
  intros [-> Hs]%orb_false_elim. by rewrite IH.
Qed.

Lemma scan_text_plain (s t : string) :
  has_char "%" s = false → scan Text (s +:+ t) = scan Text t.
Proof.
  induction s as [|c s IH]; simpl; [done|].
  intros [Hc Hs]%orb_false_elim.
  rewrite Ascii.eqb_sym, Hc. auto.
Qed.

Lemma scan_name (k acc t : string) :
  has_char ")" k = false →
  scan (Name acc) (k +:+ String ")" t) = (acc +:+ k) :: scan Text t.
Proof.
  revert acc. induction k as [|c k IH]; simpl; intros acc.
  - intros _. by rewrite append_nil_r.
  - intros [Hc Hk]%orb_false_elim.
    rewrite Ascii.eqb_sym, Hc, IH by done.
    by rewrite append_assoc.
Qed.

Lemma pretty_N_char_digit x : is_digit (pretty_N_char x) = true.
Proof. unfold pretty_N_char. by repeat case_match. Qed.

Lemma has_char_pretty_N_go c x s :
  is_digit c = false → has_char c (pretty_N_go x s) = has_char c s.
Proof.
  intros Hc. revert s. induction (N.lt_wf_0 x) as [x _ IH]; intros s.
  destruct (decide (0 < x)%N) as [Hx|Hx].
  - rewrite pretty_N_go_step by done.
    rewrite IH by (by apply N.div_lt). simpl.
    destruct (Ascii.eqb_spec c (pretty_N_char (x `mod` 10))) as [->|_]; [|done].
    by rewrite pretty_N_char_digit in Hc.
  - assert (x = 0%N) as -> by lia. by rewrite pretty_N_go_0.
Qed.

Lemma has_char_pretty_nat c (n : nat) :
  is_digit c = false → has_char c (pretty n) = false.
Proof.
  intros Hc. unfold pretty, pretty_nat, pretty, pretty_N.
  case_decide.
  - simpl. destruct (Ascii.eqb_spec c "0") as [->|_]; [done|done].
  - by rewrite has_char_pretty_N_go.
Qed.

(** ** The filter builder: closed forms *)

Module FiltersFacts.
Import Filters FiltersTerms.

Lemma wh_key_inj i j : wh_key i = wh_key j → i = j.
Proof. unfold wh_key. intros H. simplify_eq/=. by apply (inj pretty). Qed.

Lemma wh_key_no_paren i : has_char ")" (wh_key i) = false.
Proof. unfold wh_key. by rewrite has_char_app, has_char_pretty_nat. Qed.

Lemma wh_key_no_percent i : has_char "%" (wh_key i) = false.
Proof. unfold wh_key. by rewrite has_char_app, has_char_pretty_nat. Qed.

Lemma wh_key_head i : ∃ s, wh_key i = String "w" s.
Proof. unfold wh_key. by eexists. Qed.

(** The loop, one warehouse at a time from the right. *)
Lemma wh_loop_snoc ws w p :
  wh_loop (ws ++ [w]) p = wh_step (wh_loop ws p) (length ws, w).
Proof.
  unfold wh_loop. rewrite imap_app, foldl_app. simpl.
  by rewrite Nat.add_0_r.
Qed.

Lemma wh_loop_placeholders ws p :
  (wh_loop ws p).2 = (placeholder ∘ wh_key) <$> seq 0 (length ws).
Proof.
  induction ws as [|w ws IH] using rev_ind; [done|].
  rewrite wh_loop_snoc. simpl.
  by rewrite IH, length_app, seq_app, fmap_app.
Qed.

Lemma wh_loop_lookup_key ws p i :
  i < length ws → (wh_loop ws p).1 !! wh_key i = ws !! i.
Proof.
  induction ws as [|w ws IH] using rev_ind; simpl; [lia|].
  rewrite length_app. simpl. intros Hi.
  rewrite wh_loop_snoc. simpl.
  destruct (decide (i = length ws)) as [->|Hne].
  - rewrite lookup_insert_eq.
    by rewrite lookup_app_r, Nat.sub_diag by lia.
  - rewrite lookup_insert_ne by (intros ?%wh_key_inj; lia).
    rewrite IH, lookup_app_l by lia. done.
Qed.

Lemma wh_loop_lookup_other ws p k :
  (∀ i, i < length ws → k ≠ wh_key i) → (wh_loop ws p).1 !! k = p !! k.
Proof.
  induction ws as [|w ws IH] using rev_ind; [done|].
  rewrite length_app. simpl. intros Hk.
  rewrite wh_loop_snoc. simpl.
  rewrite lookup_insert_ne by (intros Heq; by apply (Hk (length ws)); [lia|]).
  apply IH. intros i Hi. apply Hk. lia.
Qed.

Lemma wh_loop_dom ws p :
  dom (wh_loop ws p).1 = dom p ∪ list_to_set (wh_key <$> seq 0 (length ws)).
Proof.
  induction ws as [|w ws IH] using rev_ind; [set_solver|].
  rewrite wh_loop_snoc. simpl.
  rewrite dom_insert_L, IH, length_app, seq_app, fmap_app, list_to_set_app_L.
  simpl. set_solver.
Qed.

(** Scanning one placeholder, then a comma-separated list of them. *)
Lemma scan_placeholder k t :
  has_char ")" k = false → scan Text (placeholder k +:+ t) = k :: scan Text t.
Proof.
  intros Hk. unfold placeholder. simpl.
  rewrite append_assoc. simpl. by rewrite scan_name.
Qed.

Lemma join_cons2 sep x y l : join sep (x :: y :: l) = x +:+ sep +:+ join sep (y :: l).
Proof. done. Qed.

Lemma scan_join_placeholders keys t :
  Forall (λ k, has_char ")" k = false) keys →
  scan Text (join ", " (placeholder <$> keys) +:+ t) = keys ++ scan Text t.
Proof.
  induction 1 as [|k keys Hk Hkeys IH]; [done|].
  destruct keys as [|k' keys].
  - simpl fmap. simpl join. by apply scan_placeholder.
  - rewrite !fmap_cons, join_cons2, !append_assoc.
    rewrite scan_placeholder, (scan_text_plain ", ") by done.
    by rewrite <-fmap_cons, IH.
Qed.

Lemma count_placeholder k :
  has_char "%" k = false → count_char "%" (placeholder k) = 1.
Proof.
  intros Hk. unfold placeholder. simpl.
  by rewrite count_char_app, count_char_absent.
Qed.

Lemma count_join_placeholders keys t :
  Forall (λ k, has_char "%" k = false) keys →
  count_char "%" (join ", " (placeholder <$> keys) +:+ t)
  = length keys + count_char "%" t.
Proof.
  induction 1 as [|k keys Hk Hkeys IH]; [done|].
  destruct keys as [|k' keys].
  - simpl fmap. simpl join. by rewrite count_char_app, count_placeholder.
  - rewrite !fmap_cons, join_cons2, !append_assoc.
    rewrite count_char_app, count_placeholder by done.
    rewrite (count_char_app _ ", "), <-fmap_cons, IH. done.
Qed.

Lemma wh_keys_no_percent n :
  Forall (λ k, has_char "%" k = false) (wh_key <$> seq 0 n).
Proof. apply Forall_fmap, Forall_forall. intros i _. apply wh_key_no_percent. Qed.

Lemma wh_keys_no_paren n :
  Forall (λ k, has_char ")" k = false) (wh_key <$> seq 0 n).
Proof. apply Forall_fmap, Forall_forall. intros i _. apply wh_key_no_paren. Qed.

Lemma base_filters_eq inp :
  base_filters inp =
  ["START_TIME >= %(start_ts)s"; "START_TIME <= %(end_ts)s"]
  ++ when (wh_selected (warehouses inp)) [wh_clause (length (warehouses inp))]
  ++ when (truthy (user_filter inp)) ["USER_NAME = %(user_name)s"]
  ++ when (truthy (query_tag inp)) ["QUERY_TAG = %(query_tag)s"].
Proof.
  unfold base_filters, build, wh_clause.
  destruct (wh_loop _ _) as [p phs] eqn:Hloop.
  assert (phs = (wh_loop (warehouses inp)
    (<["end_ts":=end_ts inp]> (<["start_ts":=start_ts inp]> ∅))).2) as ->
    by (by rewrite Hloop).
  rewrite wh_loop_placeholders, list_fmap_compose.
  by destruct (wh_selected _), (truthy (user_filter inp)), (truthy (query_tag inp)).
Qed.

Lemma params_eq inp :
  params inp =
  insert_when (truthy (query_tag inp)) "query_tag" (query_tag inp)
    (insert_when (truthy (user_filter inp)) "user_name" (user_filter inp)
       (if wh_selected (warehouses inp)
        then (wh_loop (warehouses inp) (base_params inp)).1
        else base_params inp)).
Proof.
  unfold params, build, base_params.
  destruct (wh_loop _ _) as [p phs] eqn:Hloop.
  by destruct (wh_selected _), (truthy (user_filter inp)), (truthy (query_tag inp)).
Qed.

Lemma placeholders_base_where inp :
  placeholders (base_where inp) =
  ["start_ts"; "end_ts"]
  ++ when (wh_selected (warehouses inp)) (wh_key <$> seq 0 (length (warehouses inp)))
  ++ when (truthy (user_filter inp)) ["user_name"]
  ++ when (truthy (query_tag inp)) ["query_tag"].
Proof.
  unfold placeholders, base_where. rewrite base_filters_eq.
  destruct (wh_selected _), (truthy (user_filter inp)), (truthy (query_tag inp));
    simpl; try done;
    rewrite ?append_assoc, scan_join_placeholders by apply wh_keys_no_paren;
    simpl; by rewrite ?app_nil_r.
Qed.

(** Every percent sign of the predicate opens a named placeholder. *)
Lemma percent_signs_base_where inp :
  count_char "%" (base_where inp) = length (placeholders (base_where inp)).
Proof.
  rewrite placeholders_base_where. unfold base_where. rewrite base_filters_eq.
  destruct (wh_selected _), (truthy (user_filter inp)), (truthy (query_tag inp));
    simpl; try done;
    rewrite ?append_assoc, count_join_placeholders by apply wh_keys_no_percent;
    simpl; rewrite ?length_app, !length_fmap, length_seq; simpl; lia.
Qed.

End FiltersFacts.

(** ** The filter builder: placeholders, bindings, warehouses, text inputs *)

Module FiltersSpec.
Import Filters FiltersTerms FiltersFacts.

Lemma wh_selected_shape a b :
  same_shape a b → wh_selected (warehouses a) = wh_selected (warehouses b).
Proof.
  intros (Hlen & Hall & _). unfold wh_selected.
  f_equal; apply bool_decide_ext; [|by rewrite Hall].
  by rewrite <-!length_zero_iff_nil, Hlen.
Qed.

Lemma base_filters_shape a b : same_shape a b → base_filters a = base_filters b.
Proof.
  intros Hs. rewrite !base_filters_eq, (wh_selected_shape a b Hs).
  destruct Hs as (-> & _ & -> & ->). done.
Qed.

Lemma truthy_true s : s ≠ EmptyString → truthy s = true.
Proof. by destruct s. Qed.

Lemma distinct_keys_wh i :
  "start_ts" ≠ wh_key i ∧ "end_ts" ≠ wh_key i
  ∧ "user_name" ≠ wh_key i ∧ "query_tag" ≠ wh_key i.
Proof. destruct (wh_key_head i) as [s ->]. done. Qed.

Lemma params_dom inp :
  dom (params inp) = list_to_set (placeholders (base_where inp)).
Proof.
  rewrite params_eq, placeholders_base_where. unfold insert_when, base_params.
  destruct (wh_selected _), (truthy (user_filter inp)), (truthy (query_tag inp));
    simpl; rewrite ?dom_insert_L, ?wh_loop_dom, ?dom_insert_L, ?dom_empty_L,
      ?list_to_set_app_L; simpl; set_solver.
Qed.

Lemma placeholders_NoDup inp : NoDup (placeholders (base_where inp)).
Proof.
  rewrite placeholders_base_where.
  assert (NoDup (wh_key <$> seq 0 (length (warehouses inp)))) as Hwh.
  { apply NoDup_fmap_2_strong; [|apply NoDup_seq].
    intros i j _ _. apply wh_key_inj. }
  assert (∀ k, k ∈ wh_key <$> seq 0 (length (warehouses inp)) →
          k ≠ "start_ts" ∧ k ≠ "end_ts" ∧ k ≠ "user_name" ∧ k ≠ "query_tag") as Hk.
  { intros k (i & -> & _)%list_elem_of_fmap.
    destruct (distinct_keys_wh i) as (?&?&?&?). done. }
  destruct (wh_selected _), (truthy (user_filter inp)), (truthy (query_tag inp));
    simpl; rewrite ?app_nil_r;
    repeat (apply NoDup_cons; split; [set_solver|]);
    rewrite ?NoDup_app; repeat split; try done;
    try (by apply NoDup_nil_2);
    try (intros k Hin; apply Hk in Hin; set_solver);
    repeat (apply NoDup_cons; split; [set_solver|]); by apply NoDup_nil_2.
Qed.

Lemma params_time inp :
  params inp !! "start_ts" = Some (start_ts inp)
  ∧ params inp !! "end_ts" = Some (end_ts inp).
Proof.
  rewrite params_eq. unfold insert_when, base_params.
  destruct (truthy (query_tag inp)), (truthy (user_filter inp)),
    (wh_selected (warehouses inp));
    rewrite ?lookup_insert_ne by done;
    rewrite ?wh_loop_lookup_other by (intros i _; apply distinct_keys_wh);
    by simplify_map_eq.
Qed.

Lemma params_wh inp i :
  params inp !! wh_key i =
  if wh_selected (warehouses inp) then warehouses inp !! i else None.
Proof.
  rewrite params_eq. unfold insert_when, base_params.
  destruct (distinct_keys_wh i) as (?&?&?&?).
  assert (∀ m : gmap string string,
    (if truthy (query_tag inp) then <["query_tag":=query_tag inp]> m else m)
      !! wh_key i = m !! wh_key i) as ->.
  { intros m. destruct (truthy _); by rewrite ?lookup_insert_ne. }
  assert (∀ m : gmap string string,
    (if truthy (user_filter inp) then <["user_name":=user_filter inp]> m else m)
      !! wh_key i = m !! wh_key i) as ->.
  { intros m. destruct (truthy _); by rewrite ?lookup_insert_ne. }
  destruct (wh_selected _).
  - destruct (decide (i < length (warehouses inp))) as [Hi|Hi].
    + by apply wh_loop_lookup_key.
    + rewrite wh_loop_lookup_other by (intros j Hj ?%wh_key_inj; lia).
      rewrite !lookup_insert_ne, lookup_empty by done.
      symmetry. apply lookup_ge_None. lia.
  - by rewrite !lookup_insert_ne, lookup_empty.
Qed.

Lemma params_user inp :
  params inp !! "user_name" =
  if truthy (user_filter inp) then Some (user_filter inp) else None.
Proof.
  rewrite params_eq. unfold insert_when, base_params.
  destruct (truthy (query_tag inp)), (truthy (user_filter inp)),
    (wh_selected (warehouses inp));
    rewrite ?lookup_insert_ne by done; rewrite ?lookup_insert_eq; try done;
    rewrite ?wh_loop_lookup_other by (intros i _; apply distinct_keys_wh);
    by simplify_map_eq.
Qed.

Lemma params_tag inp :
  params inp !! "query_tag" =
  if truthy (query_tag inp) then Some (query_tag inp) else None.
Proof.
  rewrite params_eq. unfold insert_when, base_params.
  destruct (truthy (query_tag inp)), (truthy (user_filter inp)),
    (wh_selected (warehouses inp));
    rewrite ?lookup_insert_eq; try done;
    rewrite ?lookup_insert_ne by done;
    rewrite ?wh_loop_lookup_other by (intros i _; apply distinct_keys_wh);
    by simplify_map_eq.
Qed.

(** C1. The predicate text references its values through named placeholders
    only: every percent sign of [base_where] opens a named placeholder; the
    placeholders are pairwise distinct and are exactly the keys bound in
    [params], so each has one binding; the text is the same for any two
    selections of the same shape, so no date, warehouse name, user or tag
    text is written into it; and each active value is the binding of its
    placeholder. *)
Theorem C1_predicate_only_placeholders (inp : Sidebar) :
  let sql := base_where inp in
  count_char "%" sql = length (placeholders sql)
  ∧ NoDup (placeholders sql)
  ∧ dom (params inp) = list_to_set (placeholders sql)
  ∧ (∀ inp', same_shape inp inp' → base_where inp' = sql)
  ∧ params inp !! "start_ts" = Some (start_ts inp)
  ∧ params inp !! "end_ts" = Some (end_ts inp)
  ∧ (wh_selected (warehouses inp) = true →
     ∀ i w, warehouses inp !! i = Some w → params inp !! wh_key i = Some w)
  ∧ (user_filter inp ≠ EmptyString →
     params inp !! "user_name" = Some (user_filter inp))
  ∧ (query_tag inp ≠ EmptyString →
     params inp !! "query_tag" = Some (query_tag inp)).
Proof.
  simpl. split_and!.
  - apply percent_signs_base_where.
  - apply placeholders_NoDup.
  - apply params_dom.
  - intros inp' Hs. unfold base_where. by rewrite (base_filters_shape inp inp').
  - apply params_time.
  - apply params_time.
  - intros Hsel i w Hw. by rewrite params_wh, Hsel.
  - intros Hu. by rewrite params_user, truthy_true.
  - intros Ht. by rewrite params_tag, truthy_true.
Qed.

Lemma wh_clause_head n : ∃ s, wh_clause n = String "W" s.
Proof. unfold wh_clause. by eexists. Qed.

Lemma wh_selected_all ws : "ALL" ∈ ws → wh_selected ws = false.
Proof.
  intros Hall. unfold wh_selected.
  rewrite (bool_decide_eq_false_2 ("ALL" ∉ ws)) by auto.
  apply andb_false_r.
Qed.

Lemma wh_selected_named ws : "ALL" ∉ ws → ws ≠ [] → wh_selected ws = true.
Proof.
  intros Hall Hne. unfold wh_selected.
  by rewrite !bool_decide_eq_true_2.
Qed.

Lemma wh_build_eq inp :
  wh_build inp =
  if wh_selected (warehouses inp)
  then ("AND " +:+ wh_clause (length (warehouses inp)),
        (wh_loop (warehouses inp) ∅).1)
  else (EmptyString, ∅).
Proof.
  unfold wh_build, wh_clause.
  destruct (wh_loop _ _) as [p phs] eqn:Hloop.
  assert (phs = (wh_loop (warehouses inp) ∅).2) as -> by (by rewrite Hloop).
  by rewrite wh_loop_placeholders, list_fmap_compose.
Qed.

(** C2. When the selection contains the sentinel, whatever else it contains,
    [base_filters] holds the two time clauses and the optional user and tag
    clauses only, no [wh_] key is bound, and the metering filter is empty.
    When it does not, the i-th selected warehouse is bound under [wh_i], the
    keys bound are exactly [wh_0 .. wh_(n-1)], and for a non-empty selection
    the clause [WAREHOUSE_NAME IN (...)] is present, its placeholders being
    [wh_0 .. wh_(n-1)], one per warehouse. *)
Theorem C2_warehouse_selection (inp : Sidebar) :
  ("ALL" ∈ warehouses inp →
     base_filters inp =
       ["START_TIME >= %(start_ts)s"; "START_TIME <= %(end_ts)s"]
       ++ when (truthy (user_filter inp)) ["USER_NAME = %(user_name)s"]
       ++ when (truthy (query_tag inp)) ["QUERY_TAG = %(query_tag)s"]
     ∧ (∀ i, params inp !! wh_key i = None)
     ∧ wh_filter_sql inp = EmptyString
     ∧ wh_params inp = ∅)
  ∧ ("ALL" ∉ warehouses inp →
     (∀ i w, warehouses inp !! i = Some w →
        params inp !! wh_key i = Some w ∧ wh_params inp !! wh_key i = Some w)
     ∧ (∀ i, is_Some (params inp !! wh_key i) ↔ i < length (warehouses inp))
     ∧ (warehouses inp ≠ [] →
        wh_clause (length (warehouses inp)) ∈ base_filters inp
        ∧ wh_filter_sql inp = "AND " +:+ wh_clause (length (warehouses inp))
        ∧ placeholders (wh_clause (length (warehouses inp)))
          = wh_key <$> seq 0 (length (warehouses inp))
        ∧ length (placeholders (wh_clause (length (warehouses inp))))
          = length (warehouses inp))).
Proof.
  split.
  - intros Hall. pose proof (wh_selected_all _ Hall) as Hsel.
    split_and!.
    + by rewrite base_filters_eq, Hsel.
    + intros i. by rewrite params_wh, Hsel.
    + unfold wh_filter_sql. by rewrite wh_build_eq, Hsel.
    + unfold wh_params. by rewrite wh_build_eq, Hsel.
  - intros Hall. split_and!.
    + intros i w Hw.
      assert (warehouses inp ≠ []) as Hne by (by intros Heq; rewrite Heq in Hw).
      pose proof (wh_selected_named _ Hall Hne) as Hsel.
      split; [by rewrite params_wh, Hsel|].
      unfold wh_params. rewrite wh_build_eq, Hsel. simpl.
      rewrite wh_loop_lookup_key; [done|]. by eapply lookup_lt_Some.
    + intros i. rewrite params_wh.
      destruct (decide (warehouses inp = [])) as [Hws|Hws].
      * rewrite Hws. simpl.
        split; [intros [x Hx]; by destruct (wh_selected []) | lia].
      * rewrite wh_selected_named by done. apply lookup_lt_is_Some.
    + intros Hne. pose proof (wh_selected_named _ Hall Hne) as Hsel.
      split_and!.
      * rewrite base_filters_eq, Hsel. set_solver.
      * unfold wh_filter_sql. by rewrite wh_build_eq, Hsel.
      * unfold placeholders, wh_clause. simpl.
        rewrite scan_join_placeholders by apply wh_keys_no_paren.
        simpl. by rewrite app_nil_r.
      * unfold placeholders, wh_clause. simpl.
        rewrite scan_join_placeholders by apply wh_keys_no_paren.
        simpl. by rewrite app_nil_r, length_fmap, length_seq.
Qed.

(** The sentinel also wins when it is selected together with names. *)
Example warehouse_all_among_names :
  let inp := {| start_ts := "2024-01-01 00:00:00";
                end_ts := "2024-01-07 23:59:59.999999";
                warehouses := ["WH_A"; "ALL"; "WH_B"]; fallback_window := 60;
                user_filter := EmptyString; query_tag := EmptyString |} in
  base_where inp = "START_TIME >= %(start_ts)s AND START_TIME <= %(end_ts)s"
  ∧ size (params inp) = 2.
Proof. vm_compute. done. Qed.

(** C3, as stated, fails: a user text of one space and a tag text of two
    spaces are blank, yet each adds its clause to the predicate and is bound
    verbatim as the value to match. *)
Lemma C3_blank_text_still_filters :
  blank (user_filter blank_inp) = true
  ∧ blank (query_tag blank_inp) = true
  ∧ "USER_NAME = %(user_name)s" ∈ base_filters blank_inp
  ∧ "QUERY_TAG = %(query_tag)s" ∈ base_filters blank_inp
  ∧ params blank_inp !! "user_name" = Some " "
  ∧ params blank_inp !! "query_tag" = Some "  "
  ∧ base_where blank_inp =
    "START_TIME >= %(start_ts)s AND START_TIME <= %(end_ts)s AND USER_NAME = %(user_name)s AND QUERY_TAG = %(query_tag)s".
Proof.
  split_and!; try (vm_compute; reflexivity).
  - rewrite base_filters_eq. simpl. set_solver.
  - rewrite base_filters_eq. simpl. set_solver.
Qed.

(** C3, amended. An empty user text (resp. tag text) adds no clause, no
    placeholder and no binding for that dimension; a non-empty one, blank or
    not, adds the equality clause and binds the text as typed. *)
Theorem C3_empty_text_no_clause (inp : Sidebar) :
  (user_filter inp = EmptyString →
     ("USER_NAME = %(user_name)s" ∉ base_filters inp)
     ∧ ("user_name" ∉ placeholders (base_where inp))
     ∧ params inp !! "user_name" = None)
  ∧ (query_tag inp = EmptyString →
     ("QUERY_TAG = %(query_tag)s" ∉ base_filters inp)
     ∧ ("query_tag" ∉ placeholders (base_where inp))
     ∧ params inp !! "query_tag" = None)
  ∧ (user_filter inp ≠ EmptyString →
     "USER_NAME = %(user_name)s" ∈ base_filters inp
     ∧ params inp !! "user_name" = Some (user_filter inp))
  ∧ (query_tag inp ≠ EmptyString →
     "QUERY_TAG = %(query_tag)s" ∈ base_filters inp
     ∧ params inp !! "query_tag" = Some (query_tag inp)).
Proof.
  assert (∀ k, k ∈ wh_key <$> seq 0 (length (warehouses inp)) →
          k ≠ "user_name" ∧ k ≠ "query_tag") as Hk.
  { intros k (i & -> & _)%list_elem_of_fmap.
    destruct (distinct_keys_wh i) as (?&?&?&?). done. }
  destruct (wh_clause_head (length (warehouses inp))) as [c Hc].
  split_and!.
  - intros Hu. rewrite base_filters_eq, placeholders_base_where, params_user, Hu.
    rewrite Hc. simpl. split_and!; [| |done].
    + destruct (wh_selected _), (truthy (query_tag inp)); simpl; set_solver.
    + destruct (wh_selected _), (truthy (query_tag inp)); simpl;
        rewrite ?app_nil_r; repeat setoid_rewrite elem_of_cons;
        try setoid_rewrite elem_of_app; set_solver.
  - intros Ht. rewrite base_filters_eq, placeholders_base_where, params_tag, Ht.
    rewrite Hc. simpl. split_and!; [| |done].
    + destruct (wh_selected _), (truthy (user_filter inp)); simpl; set_solver.
    + destruct (wh_selected _), (truthy (user_filter inp)); simpl;
        rewrite ?app_nil_r; repeat setoid_rewrite elem_of_cons;
        try setoid_rewrite elem_of_app; set_solver.
  - intros Hu%truthy_true. rewrite base_filters_eq, params_user, Hu.
    split; [|done]. simpl. set_solver.
  - intros Ht%truthy_true. rewrite base_filters_eq, params_tag, Ht.
    split; [|done]. simpl. set_solver.
Qed.

End FiltersSpec.

(** ** The live-queries path *)

Module LiveSpec.
Import Live LiveTerms.

Example running_section_live :
  running_section conn_live ["WH1"] 60 =
  ([EvSubheader "Currently Running (SHOW QUERIES)";
    EvGetConnection; EvCursor;
    EvExecute show_sql [("warehouse", PStr "WH1")];
    EvExecute result_scan_sql []; EvFetchPandasAll; EvClose;
    EvDataframe {| columns := ["query_id"; "execution_status"];
                   rows := [["01a2"; "RUNNING"]] |}],
   inr ()).
Proof. vm_compute. reflexivity. Qed.

Example running_section_denied :
  running_section (conn_raising denied) ["WH1"] 60 =
  ([EvSubheader "Currently Running (SHOW QUERIES)";
    EvGetConnection; EvCursor;
    EvExecute show_sql [("warehouse", PStr "WH1")];
    EvWarning unavailable_warning;
    EvCaption "Snowflake error: 003001 (42501): SQL access control error: Insufficient privileges";
    EvClose;
    EvInfo "SHOW QUERIES unavailable or empty. Using INFORMATION_SCHEMA fallback.";
    EvRunQuery fallback_sql [("warehouse", PStr "WH1"); ("minutes", PInt 60)];
    EvDataframe history_frame],
   inr ()).
Proof. vm_compute. reflexivity. Qed.

Lemma single_warehouse_iff ws :
  single_warehouse ws = true ↔ ∃ w, ws = [w] ∧ w ≠ "ALL".
Proof.
  unfold single_warehouse, Filters.wh_selected.
  rewrite !andb_true_iff, !bool_decide_eq_true. split.
  - intros [[_ Hall] Hlen]. destruct ws as [|w [|??]]; simplify_eq/=.
    exists w. split; [done|]. intros ->. apply Hall. set_solver.
  - intros (w & -> & Hw). split_and!; [done| |done].
    intros ?%list_elem_of_singleton. congruence.
Qed.

Lemma run_show_queries_unfold conn w :
  connect conn = None →
  run_show_queries conn w =
  match show_body conn w with
  | (t, inr df) => (EvGetConnection :: EvCursor :: t ++ [EvClose], inr df)
  | (t, inl e) =>
      if is_programming_error e
      then (EvGetConnection :: EvCursor :: t
              ++ [EvWarning unavailable_warning;
                  EvCaption ("Snowflake error: " +:+ exn_msg e); EvClose],
            inr empty_frame)
      else (EvGetConnection :: EvCursor :: t ++ [EvClose], inl e)
  end.
Proof.
  intros Hc. unfold run_show_queries. rewrite Hc.
  destruct (show_body conn w) as [t [e|df]]; simpl; [|done].
  destruct (is_programming_error e); simpl; [|done].
  by rewrite <-app_assoc.
Qed.

Lemma run_show_queries_connect_fails conn w e :
  connect conn = Some e → run_show_queries conn w = ([EvGetConnection], inl e).
Proof. intros Hc. unfold run_show_queries. by rewrite Hc. Qed.

Lemma run_show_queries_enters conn w :
  ∃ t r, run_show_queries conn w = (EvGetConnection :: t, r).
Proof.
  destruct (connect conn) as [e|] eqn:Hc.
  - rewrite (run_show_queries_connect_fails conn w e Hc). by eexists _, _.
  - rewrite run_show_queries_unfold by done.
    destruct (show_body conn w) as [t [e|df]]; [destruct (is_programming_error e)|];
      by eexists _, _.
Qed.

Lemma show_body_starts conn w :
  ∃ t r, show_body conn w = (EvExecute show_sql [("warehouse", PStr w)] :: t, r).
Proof.
  unfold show_body, call.
  destruct (execute conn show_sql _) as [e|]; simpl; [by eexists _, _|].
  destruct (execute conn result_scan_sql _) as [e|]; simpl; [by eexists _, _|].
  destruct (fetch_pandas_all conn); by eexists _, _.
Qed.

(** The section once exactly one concrete warehouse is selected. *)
Lemma running_section_single conn w m :
  w ≠ "ALL" →
  running_section conn [w] m =
  match run_show_queries conn w with
  | (t, inl e) => (EvSubheader "Currently Running (SHOW QUERIES)" :: t, inl e)
  | (t, inr df) =>
      if df_empty (keep_running df) then
        (EvSubheader "Currently Running (SHOW QUERIES)" :: t
           ++ [EvInfo "SHOW QUERIES unavailable or empty. Using INFORMATION_SCHEMA fallback.";
               EvRunQuery fallback_sql [("warehouse", PStr w); ("minutes", PInt m)]]
           ++ match run_query conn fallback_sql
                      [("warehouse", PStr w); ("minutes", PInt m)] with
              | inl _ => []
              | inr d => [EvDataframe d]
              end,
         match run_query conn fallback_sql
                 [("warehouse", PStr w); ("minutes", PInt m)] with
         | inl e => inl e
         | inr _ => inr ()
         end)
      else
        (EvSubheader "Currently Running (SHOW QUERIES)" :: t
           ++ [EvDataframe (keep_running df)], inr ())
  end.
Proof.
  intros Hw. unfold running_section.
  assert (single_warehouse [w] = true) as -> by (apply single_warehouse_iff; eauto).
  simpl. destruct (run_show_queries conn w) as [t [e|df]]; simpl; [done|].
  destruct (df_empty (keep_running df)); simpl.
  - unfold run_running_queries_fallback, call.
    destruct (run_query conn _ _) as [e|d]; simpl; by rewrite ?app_nil_r.
  - by rewrite ?app_nil_r.
Qed.

Lemma running_section_other conn ws m :
  single_warehouse ws = false →
  running_section conn ws m =
  ([EvSubheader "Currently Running (SHOW QUERIES)";
    EvInfo "Select a single warehouse to view running queries."], inr ()).
Proof. intros Hs. unfold running_section. by rewrite Hs. Qed.

(** C9, as stated, fails: when the connector raises an OperationalError
    from the SHOW QUERIES request, [run_show_queries] closes the cursor and
    lets the exception reach its caller; it shows no warning and returns no
    frame. *)
Lemma C9_other_error_propagates :
  run_show_queries (conn_raising unreachable) "WH1" =
  ([EvGetConnection; EvCursor;
    EvExecute show_sql [("warehouse", PStr "WH1")]; EvClose],
   inl unreachable).
Proof. vm_compute. reflexivity. Qed.

(** C9, amended. When a request of the privileged path raises a
    ProgrammingError (the class of privilege and unsupported-statement
    failures), [run_show_queries] does not raise: it shows the warning, then a
    caption with the provider's message, closes the cursor and returns the
    empty frame. An exception of any other class is re-raised to the caller
    once the cursor is closed. *)
Theorem C9_show_queries_failure conn w t e :
  connect conn = None →
  show_body conn w = (t, inl e) →
  (is_programming_error e = true →
     run_show_queries conn w =
     (EvGetConnection :: EvCursor :: t
        ++ [EvWarning unavailable_warning;
            EvCaption ("Snowflake error: " +:+ exn_msg e); EvClose],
      inr empty_frame))
  ∧ (is_programming_error e = false →
     run_show_queries conn w =
     (EvGetConnection :: EvCursor :: t ++ [EvClose], inl e)).
Proof.
  intros Hc Hb. rewrite run_show_queries_unfold, Hb by done.
  split; by intros ->.
Qed.

(** C9, amended, at the connection whose SHOW request is denied. *)
Lemma C9_show_queries_failure_witness :
  run_show_queries (conn_raising denied) "WH1" =
  ([EvGetConnection; EvCursor;
    EvExecute show_sql [("warehouse", PStr "WH1")];
    EvWarning unavailable_warning;
    EvCaption "Snowflake error: 003001 (42501): SQL access control error: Insufficient privileges";
    EvClose],
   inr empty_frame).
Proof.
  exact (proj1 (C9_show_queries_failure (conn_raising denied) "WH1"
                  [EvExecute show_sql [("warehouse", PStr "WH1")]] denied
                  eq_refl eq_refl) eq_refl).
Defined.

(** C8, as stated, fails in its fall-back part: with one concrete warehouse
    selected and the privileged request failing with an OperationalError, the
    section raises that error; the historical query is never issued and
    nothing is displayed. *)
Lemma C8_other_error_no_fallback :
  running_section (conn_raising unreachable) ["WH1"] 60 =
  ([EvSubheader "Currently Running (SHOW QUERIES)";
    EvGetConnection; EvCursor;
    EvExecute show_sql [("warehouse", PStr "WH1")]; EvClose],
   inl unreachable)
  ∧ Forall (λ ev, is_fallback ev = false)
      (running_section (conn_raising unreachable) ["WH1"] 60).1.
Proof.
  split; [vm_compute; reflexivity|].
  apply (Forall_forall (λ ev, is_fallback ev = false)).
  vm_compute. intros ev Hin.
  repeat (apply elem_of_cons in Hin as [->|Hin]; [done|]).
  by apply elem_of_nil in Hin.
Qed.

(** C8, amended. The section enters [run_show_queries] if and only if the
    selection is one warehouse other than the sentinel. For any other
    selection it shows the hint and issues no query. With one concrete
    warehouse [w] and a working connection the SHOW QUERIES request for [w]
    is sent; then, if the privileged path raises a
    ProgrammingError, or answers a frame that is empty once restricted to
    RUNNING rows (the restriction applies when the frame has an
    [execution_status] column), the section announces the fall-back and runs
    the time-windowed historical query for [w] and the chosen window, showing
    its result; if RUNNING rows remain, it shows them and issues nothing
    else; an exception of another class is raised by the section. *)
Theorem C8_running_view conn ws m :
  let r := running_section conn ws m in
  let head := EvSubheader "Currently Running (SHOW QUERIES)" in
  let note :=
    EvInfo "SHOW QUERIES unavailable or empty. Using INFORMATION_SCHEMA fallback." in
  let binds w := [("warehouse", PStr w); ("minutes", PInt m)] in
  let shown w :=
    match run_query conn fallback_sql (binds w) with
    | inl _ => []
    | inr d => [EvDataframe d]
    end in
  let outcome w : exn + unit :=
    match run_query conn fallback_sql (binds w) with
    | inl e => inl e
    | inr _ => inr ()
    end in
  (EvGetConnection ∈ r.1 ↔ ∃ w, ws = [w] ∧ w ≠ "ALL")
  ∧ ((¬ ∃ w, ws = [w] ∧ w ≠ "ALL") →
     r = ([head; EvInfo "Select a single warehouse to view running queries."],
          inr ())
     ∧ Forall (λ ev, is_query ev = false) r.1)
  ∧ (∀ w, ws = [w] → w ≠ "ALL" → connect conn = None →
     EvExecute show_sql [("warehouse", PStr w)] ∈ r.1)
  ∧ (∀ w, ws = [w] → w ≠ "ALL" → connect conn = None →
     (∀ t e, show_body conn w = (t, inl e) → is_programming_error e = true →
        r = (head :: EvGetConnection :: EvCursor :: t
               ++ [EvWarning unavailable_warning;
                   EvCaption ("Snowflake error: " +:+ exn_msg e); EvClose]
               ++ [note; EvRunQuery fallback_sql (binds w)] ++ shown w,
             outcome w))
     ∧ (∀ t df, show_body conn w = (t, inr df) →
        df_empty (keep_running df) = true →
        r = (head :: EvGetConnection :: EvCursor :: t ++ [EvClose]
               ++ [note; EvRunQuery fallback_sql (binds w)] ++ shown w,
             outcome w))
     ∧ (∀ t df, show_body conn w = (t, inr df) →
        df_empty (keep_running df) = false →
        r = (head :: EvGetConnection :: EvCursor :: t ++ [EvClose]
               ++ [EvDataframe (keep_running df)],
             inr ()))
     ∧ (∀ t e, show_body conn w = (t, inl e) → is_programming_error e = false →
        r = (head :: EvGetConnection :: EvCursor :: t ++ [EvClose], inl e))).
Proof.
  simpl. split_and!.
  - split.
    + intros Hin. apply single_warehouse_iff.
      destruct (single_warehouse ws) eqn:Hs; [done|].
      rewrite running_section_other in Hin by done. simpl in Hin.
      repeat (apply elem_of_cons in Hin as [?|Hin]; [done|]).
      by apply elem_of_nil in Hin.
    + intros (w & -> & Hw). rewrite running_section_single by done.
      destruct (run_show_queries_enters conn w) as (t & r & ->).
      destruct r as [e|df]; [set_solver|].
      destruct (df_empty _); set_solver.
  - intros Hno.
    assert (single_warehouse ws = false) as Hs.
    { destruct (single_warehouse ws) eqn:Hs; [|done].
      by apply single_warehouse_iff in Hs. }
    rewrite running_section_other by done. split; [done|].
    simpl. by repeat constructor.
  - intros w -> Hw Hc. rewrite running_section_single by done.
    rewrite run_show_queries_unfold by done.
    destruct (show_body_starts conn w) as (t & r & ->).
    destruct r as [e|df]; [destruct (is_programming_error e)|]; simpl;
      try destruct (df_empty _); set_solver.
  - intros w -> Hw Hc. rewrite running_section_single by done.
    rewrite run_show_queries_unfold by done. split_and!.
    + intros t e -> ->. simpl.
      by rewrite <-!app_assoc.
    + intros t df -> ->. simpl. by rewrite <-!app_assoc.
    + intros t df -> ->. simpl. by rewrite <-!app_assoc.
    + intros t e -> ->. done.
Qed.

End LiveSpec.

(** ** Sorting routines that meet the contract *)

Module Sorters.
Import Sorting.

Section insertion.
Context {A : Type} (before : A → A → bool).
Hypothesis total : ∀ x y, before x y = true ∨ before y x = true.
Hypothesis trans : ∀ x y z, before x y = true → before y z = true → before x z = true.

Lemma insert_by_perm x l : insert_by before x l ≡ₚ x :: l.
Proof.
  induction l as [|y l IH]; simpl; [done|].
  destruct (before x y); [done|].
  rewrite IH. apply Permutation_swap.
Qed.

Lemma insertion_sort_perm l : insertion_sort before l ≡ₚ l.
Proof.
  induction l as [|x l IH]; simpl; [done|].
  by rewrite insert_by_perm, IH.
Qed.

Lemma insert_by_sorted x l :
  StronglySorted (λ a b, before a b = true) l →
  StronglySorted (λ a b, before a b = true) (insert_by before x l).
Proof.
  induction 1 as [|y l Hs IH Hall]; simpl; [by repeat constructor|].
  destruct (before x y) eqn:Hxy.
  - constructor; [by constructor|].
    constructor; [done|].
    eapply Forall_impl; [done|]. intros z Hz. by eapply trans.
  - constructor; [done|].
    rewrite insert_by_perm. constructor; [|done].
    destruct (total x y); congruence.
Qed.

Lemma insertion_sort_sorted l :
  StronglySorted (λ a b, before a b = true) (insertion_sort before l).
Proof.
  induction l as [|x l IH]; simpl; [constructor|].
  by apply insert_by_sorted.
Qed.
End insertion.

Definition stable_sorter : sorter :=
  {| sort_by A before l := insertion_sort before l;
     sort_by_perm A before l := insertion_sort_perm before l;
     sort_by_sorted A before tot tr l := insertion_sort_sorted before tot tr l |}.

(** A prefix of a sorted list: sorted, and ahead of what was cut off. *)
Lemma take_sorted {A} (R : relation A) n l :
  StronglySorted R l →
  StronglySorted R (take n l)
  ∧ ∀ x y, x ∈ take n l → y ∈ drop n l → R x y.
Proof.
  intros Hs. rewrite <-(take_drop n l) in Hs at 1.
  apply StronglySorted_app in Hs as (Hcross & Hl & _). split; [done|].
  intros x y Hx Hy. by apply Hcross.
Qed.

End Sorters.

(** ** The Top-10 views *)

Module FramesSpec.
Import Frames FramesTerms Sorting Sorters.

Lemma desc_na_last_total x y :
  desc_na_last x y = true ∨ desc_na_last y x = true.
Proof.
  destruct x as [a|], y as [b|]; simpl; auto.
  rewrite !bool_decide_eq_true. destruct (total Qcle a b); auto.
Qed.

Lemma desc_na_last_trans x y z :
  desc_na_last x y = true → desc_na_last y z = true → desc_na_last x z = true.
Proof.
  destruct x as [a|], y as [b|], z as [c|]; simpl; try done.
  rewrite !bool_decide_eq_true. intros ??. by trans b.
Qed.

Lemma sort_values_sorted s by_ df :
  StronglySorted (λ r1 r2, desc_na_last (value by_ r1) (value by_ r2) = true)
    (sort_values s by_ df).
Proof.
  unfold sort_values.
  apply (sort_by_sorted s _ (λ r1 r2, desc_na_last (value by_ r1) (value by_ r2))).
  - intros x y. apply desc_na_last_total.
  - intros x y z. apply desc_na_last_trans.
Qed.

Example top10_elapsed :
  QUERY_ID <$> top10 stable_sorter ByTotalElapsedTime
    [row "a" 5 0; row "b" 9 0; row "c" 7 0] = ["b"; "c"; "a"].
Proof. vm_compute. reflexivity. Qed.

Example top10_truncates :
  length (top10 stable_sorter ByBytesScanned
            ((λ n, row "q" 1 (Z.of_nat n)) <$> seq 0 25)) = 10.
Proof. vm_compute. reflexivity. Qed.

(** The Top-10 views (lines 265-277). Whatever conforming routine pandas
    uses, each view has [min 10 n] rows, hence at most 10; they are in
    descending order of the metric, rows without a value last; they are rows
    of the input, and every row left out could stand after each row kept.
    The order among rows of equal metric is the routine's own and is not
    settled here. *)
Theorem top10_views_ranked (s : sorter) (by_ : metric) (base_df : list MetricRow) :
  let before r1 r2 := desc_na_last (value by_ r1) (value by_ r2) = true in
  let view := top10 s by_ base_df in
  length view = 10 `min` length base_df
  ∧ length view ≤ 10
  ∧ StronglySorted before view
  ∧ ∃ rest, view ++ rest ≡ₚ base_df
      ∧ ∀ r r', r ∈ view → r' ∈ rest → before r r'.
Proof.
  simpl. unfold top10, head.
  pose proof (sort_values_sorted s by_ base_df) as Hs.
  destruct (take_sorted _ 10 _ Hs) as [Htake Hcross].
  split_and!.
  - rewrite length_take. unfold sort_values. by rewrite (sort_by_perm s).
  - rewrite length_take. lia.
  - done.
  - exists (drop 10 (sort_values s by_ base_df)). split; [|done].
    rewrite take_drop. apply (sort_by_perm s).
Qed.

End FramesSpec.

(** ** The relational operators *)

Module SqlFacts.
Import Sql SqlTerms Sorting Sorters.

Lemma desc_total x y : desc x y = true ∨ desc y x = true.
Proof. unfold desc. rewrite !bool_decide_eq_true. lia. Qed.

Lemma desc_trans x y z : desc x y = true → desc y z = true → desc x z = true.
Proof. unfold desc. rewrite !bool_decide_eq_true. lia. Qed.

Lemma desc_nulls_first_total x y :
  desc_nulls_first x y = true ∨ desc_nulls_first y x = true.
Proof.
  destruct x as [a|], y as [b|]; simpl; auto.
  rewrite !bool_decide_eq_true. destruct (total Qcle a b); auto.
Qed.

Lemma desc_nulls_first_trans x y z :
  desc_nulls_first x y = true → desc_nulls_first y z = true →
  desc_nulls_first x z = true.
Proof.
  destruct x as [a|], y as [b|], z as [c|]; simpl; try done.
  rewrite !bool_decide_eq_true. intros ??. by trans b.
Qed.

(** A filter that singles out one key among distinct keys. *)
Lemma filter_fmap_unique {K B} `{EqDecision K} (f : K → B) (P : B → Prop)
    `{∀ b, Decision (P b)} (ks : list K) (k : K) :
  NoDup ks →
  (∀ k', k' ∈ ks → P (f k') ↔ k' = k) →
  filter P (f <$> ks) = if decide (k ∈ ks) then [f k] else [].
Proof.
  induction 1 as [|k0 ks Hk0 Hnd IH]; intros HP; [done|].
  rewrite fmap_cons, filter_cons.
  assert (∀ k', k' ∈ ks → P (f k') ↔ k' = k) as HP'.
  { intros k' Hk'. apply HP. by right. }
  specialize (IH HP').
  destruct (decide (P (f k0))) as [Hp|Hp].
  - apply HP in Hp as ->; [|by left].
    rewrite IH. destruct (decide (k ∈ ks)) as [Hin|Hin]; [done|].
    destruct (decide (k ∈ k :: ks)) as [_|Hout]; [done|].
    destruct Hout. by left.
  - rewrite IH.
    assert (k0 ≠ k) as Hne by (intros ->; apply Hp, HP; [by left|done]).
    destruct (decide (k ∈ ks)) as [Hin|Hin];
      destruct (decide (k ∈ k0 :: ks)) as [Hin'|Hin']; try done.
    + destruct Hin'. by right.
    + by apply elem_of_cons in Hin' as [?|?].
Qed.

(** A left join whose condition has at most one match per left row. *)
Lemma left_join_pick {A B} (on : A → B → bool) (pick : A → option B) l r :
  (∀ a, a ∈ l → filter (λ b, on a b = true) r = option_list (pick a)) →
  left_join on l r = (λ a, (a, pick a)) <$> l.
Proof.
  unfold left_join. induction l as [|a l IH]; intros Hpick; [done|].
  rewrite bind_cons, fmap_cons, IH by (intros a' Ha'; apply Hpick; by right).
  rewrite (Hpick a) by by left.
  by destruct (pick a).
Qed.

Lemma select_ok {A B} (f : A → result B) (g : A → B) l :
  (∀ a, a ∈ l → f a = Ok (g a)) → select f l = Ok (g <$> l).
Proof.
  induction l as [|a l IH]; intros Hf; [done|].
  simpl. rewrite (Hf a) by by left.
  by rewrite IH by (intros a' Ha'; apply Hf; by right).
Qed.

Lemma sumQc_app l1 l2 : sumQc (l1 ++ l2) = (sumQc l1 + sumQc l2)%Qc.
Proof.
  induction l1 as [|x l1 IH]; simpl.
  - by rewrite Qcplus_0_l.
  - unfold sumQc in *. simpl. by rewrite IH, Qcplus_assoc.
Qed.

Lemma Qc_of_Z_plus a b : Qc_of_Z (a + b) = (Qc_of_Z a + Qc_of_Z b)%Qc.
Proof.
  apply Qc_is_canon.
  change (inject_Z (a + b) == Qred (inject_Z a + inject_Z b))%Q.
  by rewrite Qred_correct, inject_Z_plus.
Qed.

Lemma Qc_of_Z_0 : Qc_of_Z 0 = 0%Qc.
Proof. by apply Qc_is_canon. Qed.

Lemma Qc_of_Z_nonzero a : a ≠ 0%Z → Qc_of_Z a ≠ 0%Qc.
Proof.
  intros Ha Heq. apply Ha.
  apply (f_equal this) in Heq. unfold Qc_of_Z in Heq. simpl in Heq.
  by injection Heq.
Qed.

End SqlFacts.

(** ** Cost allocation and raw history *)

Module SqlSpec.
Import Sql SqlTerms Sorting Sorters SqlFacts.

Lemma filter_fmap_in {A B} (f : A → B) (P : B → Prop) (Q : A → Prop)
    `{∀ b, Decision (P b)} `{∀ a, Decision (Q a)} (l : list A) :
  (∀ a, a ∈ l → P (f a) ↔ Q a) → filter P (f <$> l) = f <$> filter Q l.
Proof.
  induction l as [|a l IH]; intros HPQ; [done|].
  rewrite fmap_cons, !filter_cons.
  rewrite IH by (intros a' Ha'; apply HPQ; by right).
  destruct (decide (P (f a))) as [Hp|Hp], (decide (Q a)) as [Hq|Hq]; try done.
  - destruct Hq. apply HPQ; [by left|done].
  - destruct Hp. apply HPQ; [by left|done].
Qed.

Lemma elem_of_fmap_filter {A K} `{EqDecision K} (f : A → K) (l : list A) k :
  k ∈ f <$> l ↔ filter (λ a, f a = k) l ≠ [].
Proof.
  split.
  - intros (a & -> & Ha)%list_elem_of_fmap Hnil.
    by apply (filter_nil_not_elem_of _ _ a) in Hnil.
  - intros Hne. destruct (filter _ l) as [|a l'] eqn:Hf; [done|].
    assert (a ∈ filter (λ a, f a = k) l) as [<- Ha]%list_elem_of_filter
      by (rewrite Hf; by left).
    by apply list_elem_of_fmap_2.
Qed.

(** Rows of the CTE [q]: the warehouse is present and the hour is the
    truncated start time. *)
Lemma cte_q_row bw H x :
  x ∈ cte_q bw H →
  q_WAREHOUSE_NAME x ≠ None ∧ q_HOUR x = date_trunc_hour (q_START_TIME x).
Proof.
  unfold cte_q. intros (r & -> & Hr)%list_elem_of_fmap.
  apply list_elem_of_filter in Hr as [[_ Hw] _]. done.
Qed.

Lemma totals_match q x :
  x ∈ q → q_WAREHOUSE_NAME x ≠ None →
  filter (λ t, on_totals x t = true) (cte_totals q) =
  [ {| t_HOUR := q_HOUR x;
       t_WAREHOUSE_NAME := q_WAREHOUSE_NAME x;
       t_TOTAL_MS := group_total_ms q (q_HOUR x) (q_WAREHOUSE_NAME x) |} ].
Proof.
  intros Hx Hw. unfold cte_totals, group_by.
  rewrite <-list_fmap_compose.
  rewrite (filter_fmap_unique _ _ _ (q_HOUR x, q_WAREHOUSE_NAME x)).
  - rewrite decide_True; [done|].
    apply elem_of_remove_dups, list_elem_of_fmap. eauto.
  - apply NoDup_remove_dups.
  - intros [h w] _. simpl. unfold on_totals. simpl.
    rewrite andb_true_iff, bool_decide_eq_true.
    destruct (q_WAREHOUSE_NAME x) as [wx|]; [|done].
    destruct w as [w|]; simpl; [rewrite bool_decide_eq_true|]; naive_solver.
Qed.

Lemma wh_match mw M (xt : QRow * option TotalsRow) w :
  q_WAREHOUSE_NAME xt.1 = Some w →
  filter (λ b, on_wh xt b = true) (cte_wh mw M) =
  option_list
    ((λ c, {| wh_HOUR := q_HOUR xt.1; wh_WAREHOUSE_NAME := w;
              wh_CREDITS_USED := c |})
     <$> bucket_credits mw M (q_HOUR xt.1) w).
Proof.
  intros Hw. unfold cte_wh, group_by.
  rewrite <-list_fmap_compose.
  rewrite (filter_fmap_unique _ _ _ (q_HOUR xt.1, w)).
  - unfold bucket_credits, bucket_rows.
    set (M' := filter (λ m, mw m = true) M).
    destruct (decide (_ ∈ remove_dups _)) as [Hin|Hin].
    + apply elem_of_remove_dups, elem_of_fmap_filter in Hin.
      simpl. by destruct (filter _ M').
    + rewrite elem_of_remove_dups, elem_of_fmap_filter in Hin.
      destruct (filter _ M'); [done|]. by destruct Hin.
  - apply NoDup_remove_dups.
  - intros [h w'] _. simpl. unfold on_wh. simpl.
    rewrite Hw. simpl.
    rewrite andb_true_iff, !bool_decide_eq_true. naive_solver.
Qed.

(** The joins and the select list, in closed form: one row per query of
    [q], in the order of [q], and no error. *)
Lemma cost_select_eq bw mw H M :
  cost_select bw mw H M =
  Ok (allocation (cte_q bw H) mw M <$> cte_q bw H).
Proof.
  unfold cost_select.
  set (q := cte_q bw H).
  rewrite (left_join_pick on_totals
    (λ x, Some {| t_HOUR := q_HOUR x;
                  t_WAREHOUSE_NAME := q_WAREHOUSE_NAME x;
                  t_TOTAL_MS := group_total_ms q (q_HOUR x) (q_WAREHOUSE_NAME x) |})).
  2:{ intros x Hx. apply totals_match; [done|]. by apply (cte_q_row bw H). }
  rewrite (left_join_pick on_wh
    (λ xt, (λ c, {| wh_HOUR := q_HOUR xt.1;
                    wh_WAREHOUSE_NAME := default EmptyString (q_WAREHOUSE_NAME xt.1);
                    wh_CREDITS_USED := c |})
           <$> credits_of mw M xt.1)).
  2:{ intros xt (x & -> & Hx)%list_elem_of_fmap.
      destruct (cte_q_row bw H x Hx) as [Hw _].
      destruct (q_WAREHOUSE_NAME x) as [w|] eqn:Hwx; [|done].
      rewrite (wh_match mw M _ w) by done.
      unfold credits_of. simpl. by rewrite Hwx. }
  rewrite <-list_fmap_compose.
  rewrite (select_ok _ (allocation q mw M ∘ fst ∘ fst)).
  - by rewrite <-!list_fmap_compose.
  - intros j (x & -> & Hx)%list_elem_of_fmap. simpl.
    unfold allocation, share. simpl.
    destruct (bool_decide (group_total_ms q _ _ = 0%Z)) eqn:Ht; simpl.
    + by destruct (credits_of mw M x).
    + rewrite Ht. by destruct (credits_of mw M x).
Qed.

Lemma sorted_lookup {A} (R : relation A) l i j x y :
  StronglySorted R l → i < j → l !! i = Some x → l !! j = Some y → R x y.
Proof.
  intros Hs. revert i j. induction Hs as [|a l Hs IH Hall]; intros i j Hij Hi Hj.
  - by rewrite lookup_nil in Hi.
  - destruct j as [|j]; [lia|]. simpl in Hj. destruct i as [|i]; simpl in Hi.
    + simplify_eq. rewrite Forall_forall in Hall.
      apply Hall. by eapply list_elem_of_lookup_2.
    + apply (IH i j); [lia|done..].
Qed.

Lemma sorted_impl {A} (R1 R2 : relation A) l :
  (∀ x y, R1 x y → R2 x y) → StronglySorted R1 l → StronglySorted R2 l.
Proof.
  intros HR. induction 1 as [|a l Hs IH Hall]; constructor; [done|].
  eapply Forall_impl; [done|]. auto.
Qed.

Lemma cost_sql_eq s bw mw H M :
  cost_sql s bw mw H M =
  Ok (take 50
        (sort_by s (λ r1 r2, desc_nulls_first (c_ESTIMATED_CREDITS r1)
                                              (c_ESTIMATED_CREDITS r2))
           (allocation (cte_q bw H) mw M <$> cte_q bw H))).
Proof. unfold cost_sql. by rewrite cost_select_eq. Qed.

Lemma cost_sorted s (rows : list CostRow) :
  StronglySorted
    (λ r1 r2, desc_nulls_first (c_ESTIMATED_CREDITS r1) (c_ESTIMATED_CREDITS r2) = true)
    (sort_by s (λ r1 r2, desc_nulls_first (c_ESTIMATED_CREDITS r1)
                                          (c_ESTIMATED_CREDITS r2)) rows).
Proof.
  apply (sort_by_sorted s _
    (λ r1 r2, desc_nulls_first (c_ESTIMATED_CREDITS r1) (c_ESTIMATED_CREDITS r2))).
  - intros x y. apply desc_nulls_first_total.
  - intros x y z. apply desc_nulls_first_trans.
Qed.

(** The estimates of a group add up to the share of the total times the
    credits. *)
Lemma sum_shares (e : QRow → Z) (t c : Qc) (l : list QRow) :
  sumQc ((λ x, Qc_of_Z (e x) / t * c)%Qc <$> l)
  = (Qc_of_Z (sumZ (e <$> l)) / t * c)%Qc.
Proof.
  induction l as [|x l IH].
  - change (0 = Qc_of_Z 0 / t * c)%Qc.
    rewrite Qc_of_Z_0. unfold Qcdiv. ring.
  - rewrite !fmap_cons.
    change (Qc_of_Z (e x) / t * c + sumQc ((λ x, Qc_of_Z (e x) / t * c) <$> l)
            = Qc_of_Z (e x + sumZ (e <$> l)) / t * c)%Qc.
    rewrite IH, Qc_of_Z_plus. unfold Qcdiv. ring.
Qed.

Example split_100_300_of_4 :
  estimates (cost_select everything everything
               [query "a" 1704067210 100; query "b" 1704067220 300]
               [credits 1704067200 4])
  = [("a", Some (1 # 1)%Q); ("b", Some (3 # 1)%Q)].
Proof. vm_compute. reflexivity. Qed.

Example single_query_zero_total :
  estimates (cost_sql stable_sorter everything everything
               [query "a" 1704067210 0] [credits 1704067200 4])
  = [("a", None)].
Proof. vm_compute. reflexivity. Qed.

Lemma allocation_estimate q mw M x w c :
  q_WAREHOUSE_NAME x = Some w →
  bucket_credits mw M (q_HOUR x) w = Some c →
  group_total_ms q (q_HOUR x) (Some w) ≠ 0%Z →
  c_ESTIMATED_CREDITS (allocation q mw M x)
  = Some (Qc_of_Z (q_TOTAL_ELAPSED_TIME x)
          / Qc_of_Z (group_total_ms q (q_HOUR x) (Some w)) * c)%Qc.
Proof.
  intros Hw Hc Ht. unfold allocation, share, credits_of. simpl.
  rewrite Hw. simpl. rewrite Hc.
  by rewrite bool_decide_eq_false_2.
Qed.

Lemma allocation_zero_total q mw M x :
  group_total_ms q (q_HOUR x) (q_WAREHOUSE_NAME x) = 0%Z →
  c_ESTIMATED_CREDITS (allocation q mw M x) = None.
Proof.
  intros Ht. unfold allocation, share. simpl.
  by rewrite bool_decide_eq_true_2.
Qed.

Lemma group_estimates q mw M hour w c (l : list QRow) :
  bucket_credits mw M hour w = Some c →
  group_total_ms q hour (Some w) ≠ 0%Z →
  (∀ x, x ∈ l → (q_HOUR x, q_WAREHOUSE_NAME x) = (hour, Some w)) →
  omap c_ESTIMATED_CREDITS (allocation q mw M <$> l)
  = (λ x, Qc_of_Z (q_TOTAL_ELAPSED_TIME x)
          / Qc_of_Z (group_total_ms q hour (Some w)) * c)%Qc <$> l.
Proof.
  intros Hc Ht. induction l as [|x l IH]; intros Hl; [done|].
  assert ((q_HOUR x, q_WAREHOUSE_NAME x) = (hour, Some w)) as [= Hh Hw]
    by (apply Hl; by left).
  rewrite !fmap_cons. cbn [omap list_omap].
  rewrite (allocation_estimate q mw M x w c) by (by rewrite ?Hh).
  rewrite Hh. f_equal. apply IH. intros y Hy. apply Hl. by right.
Qed.

Lemma group_estimates_sum bw mw H M hour w c :
  let q := cte_q bw H in
  bucket_credits mw M hour w = Some c →
  group_total_ms q hour (Some w) ≠ 0%Z →
  sumQc (omap c_ESTIMATED_CREDITS
           (filter (in_group hour w) (allocation q mw M <$> q))) = c.
Proof.
  intros q Hc Ht.
  rewrite (filter_fmap_in _ _ (λ y, (q_HOUR y, q_WAREHOUSE_NAME y) = (hour, Some w))).
  2:{ intros x Hx. destruct (cte_q_row bw H x Hx) as [_ Hh].
      unfold in_group. simpl. by rewrite Hh. }
  rewrite (group_estimates q mw M hour w c) by
    (try done; by intros x [? _]%list_elem_of_filter).
  rewrite sum_shares. fold (group_total_ms q hour (Some w)).
  field. by apply Qc_of_Z_nonzero.
Qed.

(** C5. The cost query returns, without error and before its ORDER BY and
    LIMIT, one row per query of the filtered history, in order. For a query
    whose (hour, warehouse) group has a nonzero total elapsed time and whose
    bucket has credits [c], the row's estimate is
    [elapsed / group total * c]; the estimates of such a group add up to
    [c] (exactly, numbers being rationals); the rows the query finally
    returns are among these. Two queries of 100 ms and 300 ms sharing a
    bucket of 4 credits get 1 and 3. *)
Theorem C5_proportional_allocation (bw : QueryHistory → bool)
    (mw : Metering → bool) (H : list QueryHistory) (M : list Metering) :
  let q := cte_q bw H in
  ∃ rows, cost_select bw mw H M = Ok rows
  ∧ length rows = length q
  ∧ (∀ i x, q !! i = Some x →
       ∃ r, rows !! i = Some r
       ∧ c_QUERY_ID r = q_QUERY_ID x
       ∧ c_TOTAL_ELAPSED_TIME r = q_TOTAL_ELAPSED_TIME x
       ∧ ∀ w c, q_WAREHOUSE_NAME x = Some w →
           bucket_credits mw M (q_HOUR x) w = Some c →
           group_total_ms q (q_HOUR x) (Some w) ≠ 0%Z →
           c_ESTIMATED_CREDITS r
           = Some (Qc_of_Z (q_TOTAL_ELAPSED_TIME x)
                   / Qc_of_Z (group_total_ms q (q_HOUR x) (Some w)) * c)%Qc)
  ∧ (∀ hour w c, bucket_credits mw M hour w = Some c →
       group_total_ms q hour (Some w) ≠ 0%Z →
       sumQc (omap c_ESTIMATED_CREDITS (filter (in_group hour w) rows)) = c)
  ∧ (∀ s out, cost_sql s bw mw H M = Ok out → out ⊆ rows)
  ∧ estimates (cost_select everything everything
                 [query "a" 1704067210 100; query "b" 1704067220 300]
                 [credits 1704067200 4])
    = [("a", Some (1 # 1)%Q); ("b", Some (3 # 1)%Q)].
Proof.
  intros q. exists (allocation q mw M <$> q). split_and!.
  - apply cost_select_eq.
  - by rewrite length_fmap.
  - intros i x Hx. exists (allocation q mw M x). split_and!; try done.
    + by rewrite list_lookup_fmap, Hx.
    + intros w c. apply allocation_estimate.
  - intros hour w c. by apply group_estimates_sum.
  - intros s out. rewrite cost_sql_eq. intros [= <-].
    etrans; [apply subseteq_take|]. by rewrite (sort_by_perm s).
  - vm_compute. reflexivity.
Qed.

(** C6. The cost query never fails: neither its select list nor the query
    as a whole yields an error. Every query whose (hour, warehouse) group
    has total elapsed time 0 gets a row without estimate, the division not
    being carried out; the rows finally returned are among these rows, so
    each returned row of such a group has no estimate. *)
Theorem C6_zero_total_undefined (s : sorter) (bw : QueryHistory → bool)
    (mw : Metering → bool) (H : list QueryHistory) (M : list Metering) :
  let q := cte_q bw H in
  ∃ all rows,
    cost_select bw mw H M = Ok all
    ∧ cost_sql s bw mw H M = Ok rows
    ∧ rows ⊆ all
    ∧ (∀ i x, q !! i = Some x →
         group_total_ms q (q_HOUR x) (q_WAREHOUSE_NAME x) = 0%Z →
         ∃ r, all !! i = Some r ∧ c_QUERY_ID r = q_QUERY_ID x
              ∧ c_ESTIMATED_CREDITS r = None)
    ∧ (∀ r, r ∈ all →
         group_total_ms q (date_trunc_hour (c_START_TIME r))
           (c_WAREHOUSE_NAME r) = 0%Z →
         c_ESTIMATED_CREDITS r = None).
Proof.
  intros q. exists (allocation q mw M <$> q). eexists. split_and!.
  - apply cost_select_eq.
  - apply cost_sql_eq.
  - etrans; [apply subseteq_take|]. by rewrite (sort_by_perm s).
  - intros i x Hx Ht. exists (allocation q mw M x). split_and!; [|done|].
    + by rewrite list_lookup_fmap, Hx.
    + by apply allocation_zero_total.
  - intros r (x & -> & Hx)%list_elem_of_fmap.
    destruct (cte_q_row bw H x Hx) as [_ Hh]. simpl.
    rewrite <-Hh. apply allocation_zero_total.
Qed.

(** C7, as stated, fails: the query says [ORDER BY ESTIMATED_CREDITS DESC]
    without [NULLS LAST], and the warehouse then returns the rows without an
    estimate first. On the two-row history the row without estimate precedes
    the row with estimate 4, and no conforming sort puts it last. *)
Lemma C7_undefined_rows_come_first :
  estimates (cost_sql stable_sorter everything everything
               null_history null_metering)
  = [("zero", None); ("busy", Some (4 # 1)%Q)]
  ∧ ¬ ∃ (s : sorter) rows,
        cost_sql s everything everything null_history null_metering = Ok rows
        ∧ undefined_last rows.
Proof.
  split; [vm_compute; reflexivity|].
  intros (s & rows & Hrows & Hlast).
  rewrite cost_sql_eq in Hrows.
  set (l := allocation (cte_q everything null_history) everything null_metering
            <$> cte_q everything null_history) in Hrows.
  assert (∃ ra rb, l = [ra; rb] ∧ c_ESTIMATED_CREDITS ra = None
                   ∧ is_Some (c_ESTIMATED_CREDITS rb)) as (ra & rb & Hl & Ha & Hb).
  { eexists _, _. split_and!; [by vm_compute| |]; vm_compute; eauto. }
  clearbody l. subst l.
  pose proof (cost_sorted s [ra; rb]) as Hs.
  pose proof (sort_by_perm s _
    (λ r1 r2, desc_nulls_first (c_ESTIMATED_CREDITS r1) (c_ESTIMATED_CREDITS r2))
    [ra; rb]) as Hp.
  symmetry in Hp.
  apply Permutation_length_2_inv in Hp as [Hsort|Hsort];
    rewrite Hsort in Hs, Hrows; clear Hsort;
    injection Hrows as <-.
  - assert (c_ESTIMATED_CREDITS rb = None) as Hnone
      by (apply (Hlast 0 1 ra rb); [lia|done..]).
    rewrite Hnone in Hb. by destruct Hb.
  - apply StronglySorted_inv in Hs as [_ Hall].
    apply Forall_cons in Hall as [Hba _].
    rewrite Ha in Hba. destruct Hb as [b Hb]. by rewrite Hb in Hba.
Qed.

(** C7, amended. The cost query returns at most 50 rows, ordered by
    descending estimate under the warehouse's default NULL ordering: rows
    without an estimate first, then the estimates from largest to
    smallest. *)
Theorem C7_cost_order_and_cap (s : sorter) (bw : QueryHistory → bool)
    (mw : Metering → bool) (H : list QueryHistory) (M : list Metering) :
  ∃ rows, cost_sql s bw mw H M = Ok rows
  ∧ length rows ≤ 50
  ∧ length rows = 50 `min` length (cte_q bw H)
  ∧ ∀ i j r1 r2, i < j → rows !! i = Some r1 → rows !! j = Some r2 →
      match c_ESTIMATED_CREDITS r1, c_ESTIMATED_CREDITS r2 with
      | None, _ => True
      | Some _, None => False
      | Some a, Some b => (b ≤ a)%Qc
      end.
Proof.
  eexists. split; [apply cost_sql_eq|]. split_and!.
  - rewrite length_take. lia.
  - by rewrite length_take, (sort_by_perm s), length_fmap.
  - intros i j r1 r2 Hij H1 H2.
    destruct (take_sorted _ 50 _ (cost_sorted s
      (allocation (cte_q bw H) mw M <$> cte_q bw H))) as [Hs _].
    pose proof (sorted_lookup _ _ i j r1 r2 Hs Hij H1 H2) as Hb.
    simpl in Hb. destruct (c_ESTIMATED_CREDITS r1), (c_ESTIMATED_CREDITS r2);
      simpl in Hb; try done.
    by apply bool_decide_eq_true in Hb.
Qed.

(** C10. The raw history view returns [min 500 n] rows of the [n] matching
    ones, hence never more than 500; they are matching rows of the table,
    in descending order of start time, and every matching row left out
    started no later than each row returned. *)
Theorem C10_raw_history_cap (s : sorter) (bw : QueryHistory → bool)
    (H : list QueryHistory) :
  let matching := filter (λ r, bw r = true) H in
  let out := raw_sql s bw H in
  length out ≤ 500
  ∧ length out = 500 `min` length matching
  ∧ StronglySorted (λ r1 r2, (START_TIME r2 ≤ START_TIME r1)%Z) out
  ∧ (∀ r, r ∈ out → r ∈ H ∧ bw r = true)
  ∧ ∃ rest, out ++ rest ≡ₚ matching
      ∧ ∀ r r', r ∈ out → r' ∈ rest → (START_TIME r' ≤ START_TIME r)%Z.
Proof.
  simpl. unfold raw_sql.
  set (matching := filter (λ r, bw r = true) H).
  set (before := λ r1 r2 : QueryHistory, desc (START_TIME r1) (START_TIME r2)).
  assert (StronglySorted (λ r1 r2, (START_TIME r2 ≤ START_TIME r1)%Z)
            (sort_by s before matching)) as Hs.
  { apply (sorted_impl (λ r1 r2, before r1 r2 = true)).
    - intros x y. unfold before, desc. by rewrite bool_decide_eq_true.
    - apply (sort_by_sorted s _ before).
      + intros x y. apply desc_total.
      + intros x y z. apply desc_trans. }
  destruct (take_sorted _ 500 _ Hs) as [Htake Hcross].
  split_and!.
  - rewrite length_take. lia.
  - by rewrite length_take, (sort_by_perm s).
  - done.
  - intros r Hr%subseteq_take. rewrite (sort_by_perm s) in Hr.
    apply list_elem_of_filter in Hr as [? ?]. done.
  - exists (drop 500 (sort_by s before matching)). split.
    + rewrite take_drop. apply (sort_by_perm s).
    + intros r r' Hr Hr'. by apply Hcross.
Qed.

(** More than 500 matching rows: 500 are returned, the most recent ones. *)
Example raw_history_600 :
  let out := raw_sql stable_sorter everything
               ((λ n, query "q" (Z.of_nat n) 1) <$> seq 0 600) in
  length out = 500
  ∧ START_TIME <$> take 2 out = [599; 598]%Z
  ∧ START_TIME <$> drop 499 out = [100]%Z.
Proof. vm_compute. done. Qed.

End SqlSpec.

(** * The rest of the script: lemmas and theorems *)

(** ** The SQL texts and their bindings *)

Module SqlTextSpec.
Import Filters FiltersTerms FiltersFacts FiltersSpec SqlText.

Example long_sql_threshold :
  pretty LONG_RUNNING_MS = "600000".
Proof. vm_compute. reflexivity. Qed.

Lemma scan_plain_end (s : string) : has_char "%" s = false → scan Text s = [].
Proof. intros Hs. by rewrite <-(append_nil_r s), scan_text_plain. Qed.

(** The predicate followed by more text. *)
Lemma scan_base_where_app inp t :
  scan Text (base_where inp +:+ t) = placeholders (base_where inp) ++ scan Text t.
Proof.
  rewrite placeholders_base_where. unfold base_where. rewrite base_filters_eq.
  destruct (wh_selected _), (truthy (user_filter inp)), (truthy (query_tag inp));
    simpl; try done;
    rewrite ?append_assoc, scan_join_placeholders by apply wh_keys_no_paren;
    simpl; by rewrite <-?app_assoc.
Qed.

Lemma wh_filter_sql_eq inp :
  wh_filter_sql inp =
  if wh_selected (warehouses inp)
  then "AND " +:+ wh_clause (length (warehouses inp)) else EmptyString.
Proof. unfold wh_filter_sql. rewrite wh_build_eq. by destruct (wh_selected _). Qed.

Lemma scan_wh_filter_app inp t :
  scan Text (wh_filter_sql inp +:+ t) =
  when (wh_selected (warehouses inp)) (wh_key <$> seq 0 (length (warehouses inp)))
  ++ scan Text t.
Proof.
  rewrite wh_filter_sql_eq. destruct (wh_selected _); [|done].
  unfold wh_clause. simpl.
  rewrite ?append_assoc, scan_join_placeholders by apply wh_keys_no_paren.
  done.
Qed.

Lemma count_wh_filter inp :
  count_char "%" (wh_filter_sql inp) =
  length (when (wh_selected (warehouses inp))
            (wh_key <$> seq 0 (length (warehouses inp)))).
Proof.
  rewrite wh_filter_sql_eq. destruct (wh_selected _); [|done].
  unfold wh_clause. simpl.
  rewrite count_join_placeholders by apply wh_keys_no_percent.
  simpl. lia.
Qed.

Lemma placeholders_wh_filter inp :
  placeholders (wh_filter_sql inp) =
  when (wh_selected (warehouses inp)) (wh_key <$> seq 0 (length (warehouses inp))).
Proof.
  unfold placeholders. rewrite <-(append_nil_r (wh_filter_sql inp)).
  rewrite scan_wh_filter_app. simpl. by rewrite app_nil_r.
Qed.

Lemma wh_params_eq inp :
  wh_params inp =
  if wh_selected (warehouses inp) then (wh_loop (warehouses inp) ∅).1 else ∅.
Proof. unfold wh_params. rewrite wh_build_eq. by destruct (wh_selected _). Qed.

Lemma wh_params_included inp : wh_params inp ⊆ params inp.
Proof.
  apply map_subseteq_spec. intros k v. rewrite wh_params_eq.
  destruct (wh_selected (warehouses inp)) eqn:Hsel; [|by rewrite lookup_empty].
  intros Hk.
  assert (k ∈ dom (wh_loop (warehouses inp) ∅).1) as Hdom
    by (apply elem_of_dom; eauto).
  rewrite wh_loop_dom, dom_empty_L, elem_of_union, elem_of_list_to_set in Hdom.
  destruct Hdom as [Hdom|Hdom]; [by apply elem_of_empty in Hdom|].
  apply list_elem_of_fmap in Hdom as (i & -> & Hi%elem_of_seq).
  rewrite wh_loop_lookup_key in Hk by lia.
  by rewrite params_wh, Hsel.
Qed.

Lemma cost_params_eq inp : cost_params inp = params inp.
Proof. unfold cost_params. apply map_subseteq_union, wh_params_included. Qed.

(** The bindings of the Cost Monitor tab are those of the Overview tab: the
    warehouse bindings copied in by [cost_params.update(wh_params)] are
    already in [params], key for key and value for value, and they are the
    placeholders of [wh_filter_sql]. *)
Theorem cost_params_are_params (inp : Sidebar) :
  cost_params inp = params inp
  ∧ wh_params inp ⊆ params inp
  ∧ dom (wh_params inp) = list_to_set (placeholders (wh_filter_sql inp)).
Proof.
  split_and!.
  - apply cost_params_eq.
  - apply wh_params_included.
  - rewrite placeholders_wh_filter, wh_params_eq.
    destruct (wh_selected _); simpl; [|set_solver].
    rewrite wh_loop_dom. set_solver.
Qed.

Lemma placeholders_bound inp k :
  k ∈ placeholders (base_where inp) → is_Some (params inp !! k).
Proof.
  intros Hk. apply elem_of_dom. rewrite params_dom. by apply elem_of_list_to_set.
Qed.

Lemma wh_keys_bound inp k :
  k ∈ when (wh_selected (warehouses inp))
        (wh_key <$> seq 0 (length (warehouses inp))) →
  is_Some (params inp !! k).
Proof.
  destruct (wh_selected (warehouses inp)) eqn:Hsel; simpl; [|by intros ?%elem_of_nil].
  intros (i & -> & Hi%elem_of_seq)%list_elem_of_fmap.
  rewrite params_wh, Hsel. apply lookup_lt_is_Some. lia.
Qed.

(** A text made of the predicate between two pieces without percent sign. *)
Lemma around_base_where inp (pre post : string) :
  has_char "%" pre = false → has_char "%" post = false →
  placeholders (pre +:+ base_where inp +:+ post) = placeholders (base_where inp)
  ∧ count_char "%" (pre +:+ base_where inp +:+ post)
    = length (placeholders (base_where inp)).
Proof.
  intros Hpre Hpost. split.
  - unfold placeholders at 1.
    rewrite (scan_text_plain pre) by done.
    rewrite scan_base_where_app, (scan_plain_end post) by done.
    by rewrite app_nil_r.
  - rewrite !count_char_app, (count_char_absent _ pre), (count_char_absent _ post)
      by done.
    rewrite percent_signs_base_where. lia.
Qed.

(** The metering texts: the two time placeholders, then the warehouse
    filter, between pieces without percent sign. *)
Lemma around_wh_filter inp (pre post : string) :
  has_char "%" pre = false → has_char "%" post = false →
  let text := pre +:+ "START_TIME >= %(start_ts)s
      AND START_TIME <= %(end_ts)s
      " +:+ wh_filter_sql inp +:+ post in
  placeholders text =
    ["start_ts"; "end_ts"]
    ++ when (wh_selected (warehouses inp))
         (wh_key <$> seq 0 (length (warehouses inp)))
  ∧ count_char "%" text = length (placeholders text).
Proof.
  intros Hpre Hpost text.
  assert (placeholders text =
    ["start_ts"; "end_ts"]
    ++ when (wh_selected (warehouses inp))
         (wh_key <$> seq 0 (length (warehouses inp)))) as Hph.
  { unfold placeholders, text. rewrite (scan_text_plain pre) by done.
    simpl. rewrite scan_wh_filter_app, (scan_plain_end post) by done.
    by rewrite app_nil_r. }
  split; [done|]. rewrite Hph. unfold text.
  rewrite !count_char_app, count_wh_filter, (count_char_absent _ pre),
    (count_char_absent _ post) by done.
  simpl. lia.
Qed.

Lemma placeholders_cost_sql inp :
  placeholders (cost_sql inp) =
  placeholders (base_where inp) ++ ["start_ts"; "end_ts"]
  ++ when (wh_selected (warehouses inp))
       (wh_key <$> seq 0 (length (warehouses inp))).
Proof.
  unfold placeholders at 1, cost_sql. simpl.
  rewrite scan_base_where_app. simpl.
  rewrite scan_wh_filter_app. simpl.
  by rewrite app_nil_r.
Qed.

Lemma placeholders_metering inp :
  placeholders (wh_hour_sql inp) =
    ["start_ts"; "end_ts"]
    ++ when (wh_selected (warehouses inp))
         (wh_key <$> seq 0 (length (warehouses inp)))
  ∧ placeholders (wh_day_sql inp) = placeholders (wh_hour_sql inp).
Proof.
  unfold placeholders, wh_hour_sql, wh_day_sql. simpl.
  rewrite !scan_wh_filter_app. simpl. by rewrite app_nil_r.
Qed.

Lemma placeholders_overview inp :
  placeholders (status_sql inp) = placeholders (base_where inp)
  ∧ placeholders (metric_sql inp) = placeholders (base_where inp)
  ∧ placeholders (long_sql inp) = placeholders (base_where inp)
  ∧ placeholders (raw_sql inp) = placeholders (base_where inp).
Proof.
  split_and!.
  - by apply around_base_where.
  - by apply around_base_where.
  - by apply around_base_where.
  - by apply around_base_where.
Qed.

Lemma time_keys_bound inp k : k ∈ ["start_ts"; "end_ts"] → is_Some (params inp !! k).
Proof.
  destruct (params_time inp) as [Hs He].
  intros [->|[->|[]%elem_of_nil]%elem_of_cons]%elem_of_cons; eauto.
Qed.

(** Every query the two tabs send can be bound: in each of the seven texts
    a percent sign only ever opens a named placeholder, and each placeholder
    has a binding in the map passed along with the text. The four Overview
    texts reference exactly the placeholders of the filter predicate, so no
    binding of [params] is left unused there. *)
Theorem every_query_is_bindable (inp : Sidebar) :
  Forall (λ q, bindable q.1 q.2) (queries inp)
  ∧ Forall (λ sql, list_to_set (placeholders sql) = dom (params inp))
      [status_sql inp; metric_sql inp; long_sql inp; raw_sql inp].
Proof.
  destruct (placeholders_overview inp) as (Hst & Hme & Hlo & Hra).
  destruct (placeholders_metering inp) as (Hho & Hda).
  pose proof (cost_params_eq inp) as Hcp.
  split.
  - unfold queries. rewrite Hcp.
    repeat apply Forall_cons_2; try apply Forall_nil_2; unfold bindable;
      cbn [fst snd].
    + rewrite Hst. split; [unfold status_sql; by apply around_base_where|].
      apply placeholders_bound.
    + rewrite Hme. split; [unfold metric_sql; by apply around_base_where|].
      apply placeholders_bound.
    + rewrite Hlo. split; [unfold long_sql; by apply around_base_where|].
      apply placeholders_bound.
    + rewrite Hra. split; [unfold raw_sql; by apply around_base_where|].
      apply placeholders_bound.
    + split.
      * rewrite Hho. unfold wh_hour_sql.
        rewrite !count_char_app, count_wh_filter. simpl. lia.
      * rewrite Hho. intros k [?|?]%elem_of_app;
          [by apply time_keys_bound | by apply wh_keys_bound].
    + split.
      * rewrite Hda, Hho. unfold wh_day_sql.
        rewrite !count_char_app, count_wh_filter. simpl. lia.
      * rewrite Hda, Hho. intros k [?|?]%elem_of_app;
          [by apply time_keys_bound | by apply wh_keys_bound].
    + split.
      * rewrite placeholders_cost_sql. unfold cost_sql.
        rewrite !count_char_app, count_wh_filter, percent_signs_base_where.
        simpl. rewrite !length_app. simpl. lia.
      * rewrite placeholders_cost_sql.
        intros k [?|[?|?]%elem_of_app]%elem_of_app;
          [by apply placeholders_bound | by apply time_keys_bound
          | by apply wh_keys_bound].
  - repeat apply Forall_cons_2; try apply Forall_nil_2.
    + by rewrite Hst, params_dom.
    + by rewrite Hme, params_dom.
    + by rewrite Hlo, params_dom.
    + by rewrite Hra, params_dom.
Qed.

End SqlTextSpec.

(** ** Groups, sums and counts *)

Module GroupFacts.
Import Sql SqlFacts.

Lemma filter_all {A} (P : A → Prop) `{∀ a, Decision (P a)} (l : list A) :
  (∀ a, P a) → filter P l = l.
Proof.
  intros HP. induction l as [|a l IH]; [done|].
  by rewrite filter_cons, decide_True, IH.
Qed.

(** Two joins over the same keys agree when the groups agree key by key. *)
Ltac same_groups :=
  match goal with
  | |- mjoin (?f <$> ?ks) ≡ₚ mjoin (?g <$> ?ks) =>
      rewrite (list_fmap_ext f g ks); [done|]
  end.

Section groups.
Context {R K : Type} `{EqDecision K} (key : R → K).
Context (P : K → Prop) `{∀ k, Decision (P k)}.

Lemma join_all_nil (ks : list K) : mjoin ((λ _, @nil R) <$> ks) = [].
Proof. induction ks as [|k ks IH]; [done|]. by rewrite fmap_cons. Qed.

(** Adding a row to the group of one key among distinct keys. *)
Lemma join_insert_one (x : R) (g : K → list R) (ks : list K) (k0 : K) :
  NoDup ks → k0 ∈ ks →
  mjoin ((λ k, if decide (k = k0) then x :: g k else g k) <$> ks)
  ≡ₚ x :: mjoin (g <$> ks).
Proof.
  induction 1 as [|k ks Hk Hnd IH]; intros Hin; [by apply elem_of_nil in Hin|].
  rewrite !fmap_cons. simpl.
  destruct (decide (k = k0)) as [->|Hne].
  - assert ((λ k, if decide (k = k0) then x :: g k else g k) <$> ks = g <$> ks)
      as ->; [|done].
    apply list_fmap_ext. intros i k Hik.
    rewrite decide_False; [done|]. intros ->.
    apply Hk. by eapply list_elem_of_lookup_2.
  - apply elem_of_cons in Hin as [->|Hin]; [done|].
    rewrite IH by done. by rewrite Permutation_middle.
Qed.

(** The groups of the keys satisfying [P] hold together the rows whose key
    satisfies [P]. *)
Lemma groups_partition (ks : list K) (l : list R) :
  NoDup ks → (∀ r, r ∈ l → key r ∈ ks) →
  mjoin ((λ k, if decide (P k) then filter (λ r, key r = k) l else []) <$> ks)
  ≡ₚ filter (λ r, P (key r)) l.
Proof.
  intros Hnd. induction l as [|x l IH]; intros Hks.
  - rewrite filter_nil.
    rewrite (list_fmap_ext _ (λ _, [])), join_all_nil; [done|].
    intros i k _. by destruct (decide (P k)).
  - assert (∀ r, r ∈ l → key r ∈ ks) as Hks' by (intros r Hr; apply Hks; by right).
    specialize (IH Hks').
    rewrite filter_cons. destruct (decide (P (key x))) as [Hp|Hp].
    + rewrite <-IH.
      rewrite <-(join_insert_one x _ ks (key x)) by (done || apply Hks; by left).
      same_groups. intros i k _.
      rewrite filter_cons.
      destruct (decide (k = key x)) as [->|Hne].
      * rewrite !(decide_True (P:=P (key x))) by done.
        by rewrite decide_True.
      * destruct (decide (P k)); [|done].
        rewrite decide_False; [done|]. by intros <-.
    + rewrite <-IH. same_groups. intros i k _.
      destruct (decide (P k)) as [Hk|Hk]; [|done].
      rewrite filter_cons, decide_False; [done|]. by intros <-.
Qed.

End groups.

(** The groups of [GROUP BY] hold together the rows grouped. *)
Lemma group_by_partition {R K} `{EqDecision K} (key : R → K) (l : list R) :
  mjoin (snd <$> group_by key l) ≡ₚ l.
Proof.
  unfold group_by. rewrite <-list_fmap_compose.
  assert (mjoin ((λ k, if decide ((λ _, True) k)
                       then filter (λ r, key r = k) l else [])
                 <$> remove_dups (key <$> l)) ≡ₚ l) as Hp.
  { rewrite (groups_partition key (λ _, True)).
    - by rewrite (filter_all _ l).
    - apply NoDup_remove_dups.
    - intros r Hr. apply elem_of_remove_dups, list_elem_of_fmap. eauto. }
  etrans; [|apply Hp]. same_groups. intros i k _. simpl.
  by destruct (decide True).
Qed.

Lemma group_by_keys {R K} `{EqDecision K} (key : R → K) (l : list R) :
  fst <$> group_by key l = remove_dups (key <$> l).
Proof.
  unfold group_by. rewrite <-list_fmap_compose.
  rewrite <-(list_fmap_id (remove_dups _)) at 2. by apply list_fmap_ext.
Qed.

Lemma group_by_group {R K} `{EqDecision K} (key : R → K) (l : list R) g :
  g ∈ group_by key l →
  g.2 = filter (λ r, key r = g.1) l ∧ g.2 ≠ [] ∧ g.1 ∈ key <$> l.
Proof.
  unfold group_by. intros (k & -> & Hk)%list_elem_of_fmap.
  rewrite elem_of_remove_dups in Hk.
  simpl. split_and!; [done| |done].
  apply list_elem_of_fmap in Hk as (r & -> & Hr). intros Hnil.
  by apply (filter_nil_not_elem_of _ _ r) in Hnil.
Qed.

(** The groups selected by a test on their key. *)
Lemma group_by_selected {R K} `{EqDecision K} (key : R → K)
    (P : K → Prop) `{∀ k, Decision (P k)} (l : list R) :
  mjoin (snd <$> filter (λ g, P g.1) (group_by key l))
  ≡ₚ filter (λ r, P (key r)) l.
Proof.
  rewrite <-(groups_partition key P (remove_dups (key <$> l)) l).
  - unfold group_by. induction (remove_dups (key <$> l)) as [|k ks IH]; [done|].
    rewrite !fmap_cons, filter_cons. simpl.
    destruct (decide (P k)); simpl; by rewrite IH.
  - apply NoDup_remove_dups.
  - intros r Hr. apply elem_of_remove_dups, list_elem_of_fmap. eauto.
Qed.

Lemma sumQc_perm (l1 l2 : list Qc) : l1 ≡ₚ l2 → sumQc l1 = sumQc l2.
Proof.
  unfold sumQc. induction 1 as [|x l1 l2 _ IH|x y l|l1 l2 l3 _ IH1 _ IH2]; simpl.
  - done.
  - by rewrite IH.
  - ring.
  - by rewrite IH1.
Qed.

Lemma sumQc_join (ls : list (list Qc)) : sumQc (mjoin ls) = sumQc (sumQc <$> ls).
Proof.
  induction ls as [|l ls IH]; [done|].
  rewrite fmap_cons. simpl. rewrite sumQc_app, IH. done.
Qed.

Lemma fmap_join {A B} (f : A → B) (ls : list (list A)) :
  f <$> mjoin ls = mjoin (fmap f <$> ls).
Proof.
  induction ls as [|l ls IH]; [done|].
  rewrite fmap_cons. simpl. by rewrite fmap_app, IH.
Qed.

End GroupFacts.

(** ** The status, long-running and credits views *)

Module ViewsSpec.
Import Sql SqlTerms Sorting Sorters SqlFacts SqlSpec Views GroupFacts.

Lemma status_rows_perm s bw H :
  status_sql s bw H ≡ₚ
  (λ g, {| s_EXECUTION_STATUS := g.1; s_QUERY_COUNT := length g.2 |})
  <$> group_by EXECUTION_STATUS (filter (λ r, bw r = true) H).
Proof. unfold status_sql. apply (sort_by_perm s). Qed.

(** The status overview counts every matching query once: one row per
    status that occurs among the matching rows, holding the (positive)
    number of matching rows with that status; the counts add up to the number
    of matching rows; rows come by descending count; and there is no row at
    all, hence no bar chart, exactly when nothing matches. *)
Theorem status_overview_counts (s : sorter) (bw : QueryHistory → bool)
    (H : list QueryHistory) :
  let matching := filter (λ r, bw r = true) H in
  let rows := status_sql s bw H in
  NoDup (s_EXECUTION_STATUS <$> rows)
  ∧ (∀ r, r ∈ rows →
       s_QUERY_COUNT r
       = length (filter (λ h, EXECUTION_STATUS h = s_EXECUTION_STATUS r) matching)
       ∧ 0 < s_QUERY_COUNT r)
  ∧ (∀ h, h ∈ matching →
       ∃ r, r ∈ rows ∧ s_EXECUTION_STATUS r = EXECUTION_STATUS h)
  ∧ sum_list (s_QUERY_COUNT <$> rows) = length matching
  ∧ StronglySorted (λ r1 r2, s_QUERY_COUNT r2 ≤ s_QUERY_COUNT r1) rows
  ∧ (charted rows = false ↔ matching = []).
Proof.
  intros matching rows.
  pose proof (status_rows_perm s bw H) as Hp. fold matching rows in Hp.
  split_and!.
  - rewrite Hp, <-list_fmap_compose.
    pose proof (NoDup_remove_dups (EXECUTION_STATUS <$> matching)) as Hnd.
    by rewrite <-(group_by_keys EXECUTION_STATUS matching) in Hnd.
  - intros r Hr. rewrite Hp in Hr.
    apply list_elem_of_fmap in Hr as (g & -> & Hg).
    apply group_by_group in Hg as (Hg2 & Hne & _). simpl.
    rewrite Hg2 in *. split; [done|].
    destruct (filter _ matching); [done|simpl; lia].
  - intros h Hh.
    exists {| s_EXECUTION_STATUS := EXECUTION_STATUS h;
              s_QUERY_COUNT :=
                length (filter (λ r, EXECUTION_STATUS r = EXECUTION_STATUS h)
                          matching) |}.
    split; [|done]. rewrite Hp. unfold group_by. rewrite <-list_fmap_compose.
    apply list_elem_of_fmap. exists (EXECUTION_STATUS h). split; [done|].
    apply elem_of_remove_dups, list_elem_of_fmap. eauto.
  - rewrite Hp, <-list_fmap_compose.
    rewrite <-(Permutation_length (group_by_partition EXECUTION_STATUS matching)).
    rewrite length_join, <-list_fmap_compose. done.
  - apply (sorted_impl
      (λ r1 r2, bool_decide (s_QUERY_COUNT r2 ≤ s_QUERY_COUNT r1) = true)).
    { intros x y. by rewrite bool_decide_eq_true. }
    apply (sort_by_sorted s _
      (λ r1 r2, bool_decide (s_QUERY_COUNT r2 ≤ s_QUERY_COUNT r1))).
    + intros x y. rewrite !bool_decide_eq_true. lia.
    + intros x y z. rewrite !bool_decide_eq_true. lia.
  - unfold charted. rewrite bool_decide_eq_false.
    assert (rows = [] ↔ matching = []) as <-; [|by split; [apply dec_stable|auto]].
    split.
    + intros Hnil. rewrite Hnil in Hp. symmetry in Hp.
      apply Permutation_nil_r in Hp. apply fmap_nil_inv in Hp.
      unfold group_by in Hp. apply fmap_nil_inv in Hp.
      destruct matching as [|h l]; [done|].
      assert (EXECUTION_STATUS h ∈ remove_dups (EXECUTION_STATUS <$> h :: l)) as Hin
        by (apply elem_of_remove_dups; left).
      rewrite Hp in Hin. by apply elem_of_nil in Hin.
    + intros Hnil. rewrite Hnil in Hp. by apply Permutation_nil_r in Hp.
Qed.

Lemma long_rows_perm s bw H :
  long_sql s bw H ≡ₚ
  long_row <$> filter (λ r, bw r = true ∧ (600000 ≤ TOTAL_ELAPSED_TIME r)%Z) H.
Proof. unfold long_sql. apply (sort_by_perm s). Qed.

(** The long-running view lists every matching query that ran for 600000 ms
    (ten minutes) or more, the bound included, and no other: its rows are,
    up to order, those history rows; nothing is cut off; and they come by
    descending elapsed time. *)
Theorem long_running_view (s : sorter) (bw : QueryHistory → bool)
    (H : list QueryHistory) :
  let out := long_sql s bw H in
  out ≡ₚ long_row <$> filter (λ r, bw r = true
                                   ∧ (600000 ≤ TOTAL_ELAPSED_TIME r)%Z) H
  ∧ (∀ r, r ∈ out → (600000 ≤ l_TOTAL_ELAPSED_TIME r)%Z)
  ∧ (∀ h, h ∈ H → bw h = true → (600000 ≤ TOTAL_ELAPSED_TIME h)%Z →
       long_row h ∈ out)
  ∧ StronglySorted
      (λ r1 r2, (l_TOTAL_ELAPSED_TIME r2 ≤ l_TOTAL_ELAPSED_TIME r1)%Z) out.
Proof.
  intros out. pose proof (long_rows_perm s bw H) as Hp. fold out in Hp.
  split_and!.
  - done.
  - intros r Hr. rewrite Hp in Hr.
    apply list_elem_of_fmap in Hr as (h & -> & Hh).
    by apply list_elem_of_filter in Hh as [[_ ?] _].
  - intros h Hh Hbw Hlong. rewrite Hp.
    apply list_elem_of_fmap_2, list_elem_of_filter. done.
  - apply (sorted_impl
      (λ r1 r2, desc (l_TOTAL_ELAPSED_TIME r1) (l_TOTAL_ELAPSED_TIME r2) = true)).
    { intros x y. unfold desc. by rewrite bool_decide_eq_true. }
    apply (sort_by_sorted s _
      (λ r1 r2, desc (l_TOTAL_ELAPSED_TIME r1) (l_TOTAL_ELAPSED_TIME r2))).
    + intros x y. apply desc_total.
    + intros x y z. apply desc_trans.
Qed.

(** Ten minutes sharp is long-running; one millisecond less is not. *)
Example long_running_bound :
  l_QUERY_ID <$> long_sql stable_sorter everything
    [query "a" 0 599999; query "b" 0 600000; query "c" 0 900000] = ["c"; "b"].
Proof. vm_compute. reflexivity. Qed.

Lemma credits_rows_perm trunc s mw M :
  credits_by trunc s mw M ≡ₚ
  (λ g, {| b_BUCKET := g.1.1; b_WAREHOUSE_NAME := g.1.2;
           b_CREDITS_USED := sumQc (M_CREDITS_USED <$> g.2) |})
  <$> group_by (λ m, (trunc (M_START_TIME m), M_WAREHOUSE_NAME m))
        (filter (λ m, mw m = true) M).
Proof. unfold credits_by. apply (sort_by_perm s). Qed.

(** The credits of the rows selected by a test on bucket and warehouse are
    the credits of the metering rows in scope that pass the test. *)
Lemma credits_selected trunc s mw M (Q : Z → string → Prop)
    `{∀ b w, Decision (Q b w)} :
  sumQc (b_CREDITS_USED
           <$> filter (λ r, Q (b_BUCKET r) (b_WAREHOUSE_NAME r))
                 (credits_by trunc s mw M))
  = sumQc (M_CREDITS_USED
             <$> filter (λ m, Q (trunc (M_START_TIME m)) (M_WAREHOUSE_NAME m))
                   (filter (λ m, mw m = true) M)).
Proof.
  rewrite (sumQc_perm _ _
    (fmap_Permutation _ _ _
       (filter_Permutation _ _ _ (credits_rows_perm trunc s mw M)))).
  rewrite (filter_fmap_in _ _ (λ g, Q g.1.1 g.1.2)) by done.
  rewrite <-list_fmap_compose.
  symmetry. etrans.
  { apply sumQc_perm, fmap_Permutation. symmetry.
    exact (group_by_selected
             (λ m, (trunc (M_START_TIME m), M_WAREHOUSE_NAME m))
             (λ k, Q k.1 k.2) (filter (λ m, mw m = true) M)). }
  by rewrite fmap_join, sumQc_join, <-!list_fmap_compose.
Qed.

(** The hourly and the daily credits tables ([credits_by] at the hour and at
    the day) account for every metering row in scope exactly once: the table
    has one row per (bucket, warehouse) that occurs in scope, carrying the
    sum of that bucket's rows; the credits of the table add up to the
    credits in scope; rows come by descending bucket; and the table is empty,
    hence no line chart is drawn, exactly when nothing is in scope. *)
Theorem credits_tables_conserve (trunc : Z → Z) (s : sorter)
    (mw : Metering → bool) (M : list Metering) :
  let scope := filter (λ m, mw m = true) M in
  let key m := (trunc (M_START_TIME m), M_WAREHOUSE_NAME m) in
  let rows := credits_by trunc s mw M in
  NoDup ((λ r, (b_BUCKET r, b_WAREHOUSE_NAME r)) <$> rows)
  ∧ (∀ r, r ∈ rows →
       b_CREDITS_USED r
       = sumQc (M_CREDITS_USED
                  <$> filter (λ m, key m = (b_BUCKET r, b_WAREHOUSE_NAME r)) scope)
       ∧ ∃ m, m ∈ scope ∧ key m = (b_BUCKET r, b_WAREHOUSE_NAME r))
  ∧ (∀ m, m ∈ scope →
       ∃ r, r ∈ rows ∧ (b_BUCKET r, b_WAREHOUSE_NAME r) = key m)
  ∧ sumQc (b_CREDITS_USED <$> rows) = sumQc (M_CREDITS_USED <$> scope)
  ∧ StronglySorted (λ r1 r2, (b_BUCKET r2 ≤ b_BUCKET r1)%Z) rows
  ∧ (charted rows = false ↔ scope = []).
Proof.
  intros scope key rows.
  pose proof (credits_rows_perm trunc s mw M) as Hp. fold scope key rows in Hp.
  split_and!.
  - rewrite Hp, <-list_fmap_compose.
    pose proof (NoDup_remove_dups (key <$> scope)) as Hnd.
    rewrite <-(group_by_keys key scope) in Hnd.
    rewrite <-(list_fmap_ext fst _ (group_by key scope)); [done|].
    by intros i [[??]?] _.
  - intros r Hr. rewrite Hp in Hr.
    apply list_elem_of_fmap in Hr as (g & -> & Hg).
    apply group_by_group in Hg as (Hg2 & _ & Hk). simpl.
    destruct g as [[b w] rs]. simpl in *. subst rs. split; [done|].
    apply list_elem_of_fmap in Hk as (m & Hm & ?). eauto.
  - intros m Hm.
    exists {| b_BUCKET := (key m).1; b_WAREHOUSE_NAME := (key m).2;
              b_CREDITS_USED :=
                sumQc (M_CREDITS_USED <$> filter (λ m', key m' = key m) scope) |}.
    split; [|done]. rewrite Hp. unfold group_by. rewrite <-list_fmap_compose.
    apply list_elem_of_fmap. exists (key m). split; [done|].
    apply elem_of_remove_dups, list_elem_of_fmap. eauto.
  - pose proof (credits_selected trunc s mw M (λ _ _, True)) as Hsum.
    cbv beta in Hsum.
    by rewrite !(filter_all (λ _, True)) in Hsum.
  - apply (sorted_impl (λ r1 r2, desc (b_BUCKET r1) (b_BUCKET r2) = true)).
    { intros x y. unfold desc. by rewrite bool_decide_eq_true. }
    apply (sort_by_sorted s _ (λ r1 r2, desc (b_BUCKET r1) (b_BUCKET r2))).
    + intros x y. apply desc_total.
    + intros x y z. apply desc_trans.
  - unfold charted. rewrite bool_decide_eq_false.
    assert (rows = [] ↔ scope = []) as <-; [|by split; [apply dec_stable|auto]].
    split.
    + intros Hnil. rewrite Hnil in Hp. symmetry in Hp.
      apply Permutation_nil_r in Hp. apply fmap_nil_inv in Hp.
      unfold group_by in Hp. apply fmap_nil_inv in Hp.
      destruct scope as [|m l]; [done|].
      assert (key m ∈ remove_dups (key <$> m :: l)) as Hin
        by (apply elem_of_remove_dups; left).
      rewrite Hp in Hin. by apply elem_of_nil in Hin.
    + intros Hnil. rewrite Hnil in Hp. by apply Permutation_nil_r in Hp.
Qed.

Lemma day_of_hour t : date_trunc_day (date_trunc_hour t) = date_trunc_day t.
Proof.
  unfold date_trunc_day, date_trunc_hour. f_equal.
  change 86400%Z with (3600 * 24)%Z.
  rewrite <-!Z.div_div by lia. by rewrite Z.div_mul by lia.
Qed.

(** The hourly table refines the daily one: for every day and warehouse the
    credits of the day's hourly rows add up to the credits of the daily row
    (to nothing when the daily table has no such row), whichever conforming
    order the two tables come in. *)
Theorem hourly_credits_sum_to_daily (s1 s2 : sorter) (mw : Metering → bool)
    (M : list Metering) (day : Z) (wh : string) :
  sumQc (b_CREDITS_USED
           <$> filter (λ r, date_trunc_day (b_BUCKET r) = day
                            ∧ b_WAREHOUSE_NAME r = wh)
                 (wh_hour_sql s1 mw M))
  = sumQc (b_CREDITS_USED
             <$> filter (λ r, b_BUCKET r = day ∧ b_WAREHOUSE_NAME r = wh)
                   (wh_day_sql s2 mw M)).
Proof.
  unfold wh_hour_sql, wh_day_sql.
  pose proof (credits_selected date_trunc_hour s1 mw M
                (λ b w, date_trunc_day b = day ∧ w = wh)) as Hh.
  pose proof (credits_selected date_trunc_day s2 mw M
                (λ b w, b = day ∧ w = wh)) as Hd.
  cbv beta in Hh, Hd.
  etrans; [exact Hh|]. etrans; [|symmetry; exact Hd].
  f_equal. f_equal. apply list_filter_iff. intros m.
  by rewrite day_of_hour.
Qed.

Example hourly_and_daily_credits :
  let M := [credits 1704067200 1; credits 1704070800 2; credits 1704153600 4] in
  (λ r, (b_BUCKET r, this (b_CREDITS_USED r)))
    <$> wh_hour_sql stable_sorter everything M
  = [(1704153600, 4 # 1); (1704070800, 2 # 1); (1704067200, 1 # 1)]%Z%Q
  ∧ (λ r, (b_BUCKET r, this (b_CREDITS_USED r)))
      <$> wh_day_sql stable_sorter everything M
    = [(1704153600, 4 # 1); (1704067200, 3 # 1)]%Z%Q.
Proof. vm_compute. done. Qed.

Lemma hourly_row_iff s mw M hour w c :
  {| b_BUCKET := hour; b_WAREHOUSE_NAME := w; b_CREDITS_USED := c |}
    ∈ wh_hour_sql s mw M
  ↔ bucket_credits mw M hour w = Some c.
Proof.
  unfold wh_hour_sql. rewrite (credits_rows_perm date_trunc_hour s mw M).
  unfold bucket_credits, bucket_rows.
  set (scope := filter (λ m, mw m = true) M).
  split.
  - intros (g & Heq & Hg)%list_elem_of_fmap.
    apply group_by_group in Hg as (Hg2 & Hne & _).
    destruct g as [[h w'] rs]. simpl in *. simplify_eq.
    by destruct (filter _ scope).
  - intros Hc.
    destruct (filter (λ m, (date_trunc_hour (M_START_TIME m), M_WAREHOUSE_NAME m)
                           = (hour, w)) scope) as [|m0 l0] eqn:Hf; [done|].
    injection Hc as <-.
    apply list_elem_of_fmap. exists ((hour, w), m0 :: l0). split; [done|].
    unfold group_by. apply list_elem_of_fmap. exists (hour, w).
    split; [by rewrite Hf|].
    apply elem_of_remove_dups, elem_of_fmap_filter. by rewrite Hf.
Qed.

(** The CREDITS_USED column of the cost table repeats the hourly credits
    table: a returned row carries credits [c] exactly when the hourly table
    has the row (hour of the query, its warehouse, [c]); it carries none
    exactly when the hourly table has no row for that hour and warehouse, and
    then the estimate is undefined as well. *)
Theorem cost_credits_are_hourly_credits (s s' : sorter) (bw : QueryHistory → bool)
    (mw : Metering → bool) (H : list QueryHistory) (M : list Metering) :
  ∃ rows, cost_sql s bw mw H M = Ok rows
  ∧ ∀ r, r ∈ rows →
      ∃ w, c_WAREHOUSE_NAME r = Some w
      ∧ (∀ c, c_CREDITS_USED r = Some c ↔
           {| b_BUCKET := date_trunc_hour (c_START_TIME r);
              b_WAREHOUSE_NAME := w; b_CREDITS_USED := c |}
             ∈ wh_hour_sql s' mw M)
      ∧ (c_CREDITS_USED r = None ↔
           ∀ b, b ∈ wh_hour_sql s' mw M →
             (b_BUCKET b, b_WAREHOUSE_NAME b)
             ≠ (date_trunc_hour (c_START_TIME r), w))
      ∧ (c_CREDITS_USED r = None → c_ESTIMATED_CREDITS r = None).
Proof.
  eexists. split; [apply cost_sql_eq|].
  intros r Hr%subseteq_take. rewrite (sort_by_perm s) in Hr.
  apply list_elem_of_fmap in Hr as (x & -> & Hx).
  destruct (cte_q_row bw H x Hx) as [Hw Hh].
  destruct (q_WAREHOUSE_NAME x) as [w|] eqn:Hwx; [|done].
  exists w. simpl. rewrite <-Hh. unfold credits_of. rewrite Hwx. simpl.
  split_and!; [done| | |].
  - intros c. by rewrite hourly_row_iff.
  - split.
    + intros Hnone [b w' c] Hb [= -> ->].
      apply hourly_row_iff in Hb. by rewrite Hb in Hnone.
    + intros Hno. destruct (bucket_credits mw M (q_HOUR x) w) as [c|] eqn:Hc; [|done].
      apply (hourly_row_iff s') in Hc. by destruct (Hno _ Hc).
  - intros ->. by destruct (share _ x).
Qed.

(** The cost table is about the matching queries that ran on a warehouse:
    before the final cut there is one row per matching history row with a
    warehouse, in the order of the history, repeating its identifier, user,
    warehouse, start, elapsed time and text; a query without warehouse never
    shows, and every returned row is such a row. *)
Theorem cost_rows_are_warehouse_queries (s : sorter) (bw : QueryHistory → bool)
    (mw : Metering → bool) (H : list QueryHistory) (M : list Metering) :
  let on_warehouse := filter (λ h, bw h = true ∧ WAREHOUSE_NAME h ≠ None) H in
  ∃ all rows,
    cost_select bw mw H M = Ok all
    ∧ cost_sql s bw mw H M = Ok rows
    ∧ rows ⊆ all
    ∧ (λ r, (c_QUERY_ID r, c_USER_NAME r, c_WAREHOUSE_NAME r, c_START_TIME r,
             c_TOTAL_ELAPSED_TIME r, c_QUERY_TEXT r)) <$> all
      = (λ h, (QUERY_ID h, USER_NAME h, WAREHOUSE_NAME h, START_TIME h,
               TOTAL_ELAPSED_TIME h, QUERY_TEXT h)) <$> on_warehouse
    ∧ ∀ r, r ∈ all → c_WAREHOUSE_NAME r ≠ None.
Proof.
  intros on_warehouse. eexists _, _. split_and!.
  - apply cost_select_eq.
  - apply cost_sql_eq.
  - etrans; [apply subseteq_take|]. by rewrite (sort_by_perm s).
  - unfold cte_q. fold on_warehouse. by rewrite <-!list_fmap_compose.
  - intros r (x & -> & Hx)%list_elem_of_fmap. simpl.
    by apply (cte_q_row bw H).
Qed.

Lemma sumZ_nonneg {A} (f : A → Z) (l : list A) :
  (∀ y, y ∈ l → (0 ≤ f y)%Z) → (0 ≤ sumZ (f <$> l))%Z.
Proof.
  unfold sumZ. induction l as [|a l IH]; intros Hpos; [done|].
  rewrite fmap_cons. simpl.
  assert (0 ≤ f a)%Z by (apply Hpos; left).
  assert (0 ≤ foldr Z.add 0 (f <$> l))%Z; [|lia].
  apply IH. intros y Hy. apply Hpos. by right.
Qed.

Lemma sumZ_member {A} (f : A → Z) (l : list A) x :
  (∀ y, y ∈ l → (0 ≤ f y)%Z) → x ∈ l → (0 ≤ f x ≤ sumZ (f <$> l))%Z.
Proof.
  induction l as [|a l IH]; intros Hpos Hx.
  - by apply elem_of_nil in Hx.
  - assert (∀ y, y ∈ l → (0 ≤ f y)%Z) as Hpos' by (intros y Hy; apply Hpos; by right).
    pose proof (sumZ_nonneg f l Hpos') as Hsum.
    assert (0 ≤ f a)%Z by (apply Hpos; left).
    rewrite fmap_cons. change (0 ≤ f x ≤ f a + sumZ (f <$> l))%Z.
    apply elem_of_cons in Hx as [->|Hx]; [lia|].
    specialize (IH Hpos' Hx). lia.
Qed.

Lemma sumQc_nonneg (l : list Qc) : (∀ y, y ∈ l → (0 ≤ y)%Qc) → (0 ≤ sumQc l)%Qc.
Proof.
  unfold sumQc. induction l as [|a l IH]; intros Hpos; simpl; [done|].
  apply Qcplus_nonneg_nonneg; [apply Hpos; left|].
  apply IH. intros y Hy. apply Hpos. by right.
Qed.

Lemma share_of_bucket (e t : Z) (credits : Qc) :
  (0 ≤ e ≤ t)%Z → t ≠ 0%Z → (0 ≤ credits)%Qc →
  (0 ≤ Qc_of_Z e / Qc_of_Z t * credits ≤ credits)%Qc.
Proof.
  intros [He Het] Ht Hc.
  assert (0 < Qc_of_Z t)%Qc as Htpos.
  { rewrite <-Z2Qc_inj_0. apply (proj1 (Z2Qc_inj_lt 0 t)). lia. }
  assert (0 ≤ Qc_of_Z e)%Qc as Hepos.
  { rewrite <-Z2Qc_inj_0. by apply (proj1 (Z2Qc_inj_le 0 e)). }
  assert (0 ≤ / Qc_of_Z t)%Qc as Hinv by (by apply Qclt_le_weak, Qcinv_pos).
  assert (Qc_of_Z e / Qc_of_Z t ≤ 1)%Qc as Hle.
  { unfold Qcdiv.
    rewrite <-(Qcmult_inv_r (Qc_of_Z t)) by (by apply Qc_of_Z_nonzero).
    apply Qcmult_le_mono_nonneg_r; [done|]. by apply (proj1 (Z2Qc_inj_le e t)). }
  split.
  - apply Qcmult_nonneg_nonneg; [|done].
    unfold Qcdiv. by apply Qcmult_nonneg_nonneg.
  - rewrite <-(Qcmult_1_l credits) at 2.
    by apply Qcmult_le_mono_nonneg_r.
Qed.

(** With elapsed times and metered credits that are not negative, an
    estimate is a part of its bucket: whenever a row of the cost table has
    an estimate, it has credits too, and the estimate lies between 0 and
    those credits. *)
Theorem estimate_within_bucket (bw : QueryHistory → bool)
    (mw : Metering → bool) (H : list QueryHistory) (M : list Metering) :
  (∀ h, h ∈ H → (0 ≤ TOTAL_ELAPSED_TIME h)%Z) →
  (∀ m, m ∈ M → (0 ≤ M_CREDITS_USED m)%Qc) →
  ∃ all, cost_select bw mw H M = Ok all
  ∧ ∀ r e, r ∈ all → c_ESTIMATED_CREDITS r = Some e →
      ∃ c, c_CREDITS_USED r = Some c ∧ (0 ≤ e ≤ c)%Qc.
Proof.
  intros Helapsed Hcredits. eexists. split; [apply cost_select_eq|].
  set (q := cte_q bw H).
  intros r e (x & -> & Hx)%list_elem_of_fmap. simpl.
  unfold share, credits_of.
  destruct (bool_decide (group_total_ms q _ _ = 0%Z)) eqn:Ht; [done|].
  apply bool_decide_eq_false in Ht.
  destruct (cte_q_row bw H x Hx) as [Hw _].
  destruct (q_WAREHOUSE_NAME x) as [w|] eqn:Hwx; [|done]. simpl.
  destruct (bucket_credits mw M (q_HOUR x) w) as [c|] eqn:Hc; [|done].
  simpl. intros [= <-]. exists c. split; [done|].
  apply share_of_bucket; [|done|].
  - unfold group_total_ms. apply sumZ_member.
    + intros y [_ Hy]%list_elem_of_filter.
      apply list_elem_of_fmap in Hy as (h & -> & Hh). simpl.
      apply Helapsed. by apply list_elem_of_filter in Hh as [_ ?].
    + apply list_elem_of_filter. by rewrite Hwx.
  - unfold bucket_credits in Hc.
    destruct (bucket_rows mw M (q_HOUR x) w) as [|m0 l0] eqn:Hrows; [done|].
    assert (c = sumQc (M_CREDITS_USED <$> m0 :: l0)) as -> by congruence.
    apply sumQc_nonneg.
    intros y (m & -> & Hm)%list_elem_of_fmap. apply Hcredits.
    rewrite <-Hrows in Hm. unfold bucket_rows in Hm.
    apply list_elem_of_filter in Hm as [_ Hm].
    by apply list_elem_of_filter in Hm as [_ ?].
Qed.

(** [estimate_within_bucket] on two queries of 100 ms and 300 ms sharing a
    bucket of 4 credits. *)
Lemma estimate_within_bucket_witness :
  ∃ all,
    cost_select everything everything
      [query "a" 1704067210 100; query "b" 1704067220 300]
      [credits 1704067200 4] = Ok all
    ∧ ∀ r e, r ∈ all → c_ESTIMATED_CREDITS r = Some e →
        ∃ c, c_CREDITS_USED r = Some c ∧ (0 ≤ e ≤ c)%Qc.
Proof.
  apply estimate_within_bucket.
  - intros h Hh. repeat (apply elem_of_cons in Hh as [->|Hh]; [done|]).
    by apply elem_of_nil in Hh.
  - intros m Hm. repeat (apply elem_of_cons in Hm as [->|Hm]; [done|]).
    by apply elem_of_nil in Hm.
Defined.

End ViewsSpec.

(** ** The query executor *)

Module ExecutorSpec.
Import Live Executor.

Lemma run_query_unfold conn sql p :
  run_query conn sql p =
  match connect conn with
  | Some e => ([EvGetConnection], inl e)
  | None =>
      match execute conn sql (or_empty p) with
      | Some e =>
          ([EvGetConnection; EvCursor; EvExecute sql (or_empty p); EvClose], inl e)
      | None =>
          ([EvGetConnection; EvCursor; EvExecute sql (or_empty p);
            EvFetchPandasAll; EvClose], fetch_pandas_all conn)
      end
  end.
Proof.
  unfold run_query, call.
  destruct (connect conn) as [e|]; simpl; [done|].
  destruct (execute conn sql (or_empty p)) as [e|]; simpl; [done|].
  by destruct (fetch_pandas_all conn).
Qed.

Lemma cursor_use_app o t1 t2 :
  cursor_use o (t1 ++ t2) = cursor_use o t1 ≫= λ o', cursor_use o' t2.
Proof.
  revert o. induction t1 as [|ev t1 IH]; intros o; [done|].
  destruct ev, o; simpl; try done; apply IH.
Qed.

Lemma show_body_cursor_use conn w :
  cursor_use true (show_body conn w).1 = Some true.
Proof.
  unfold show_body, call.
  destruct (execute conn show_sql _) as [e|]; simpl; [done|].
  destruct (execute conn result_scan_sql _) as [e|]; simpl; [done|].
  by destruct (fetch_pandas_all conn).
Qed.

Lemma run_show_queries_cursor_use conn w :
  cursor_use false (run_show_queries conn w).1 = Some false.
Proof.
  destruct (connect conn) as [e|] eqn:Hc.
  - by rewrite (LiveSpec.run_show_queries_connect_fails conn w e Hc).
  - rewrite LiveSpec.run_show_queries_unfold by done.
    pose proof (show_body_cursor_use conn w) as Hb.
    destruct (show_body conn w) as [t [e|df]]; simpl in *;
      [destruct (is_programming_error e); simpl|];
      by rewrite cursor_use_app, Hb.
Qed.

(** [run_query] hands on what the connection answers and tidies up: it
    raises the first exception raised by [get_connection], [execute] or
    [fetch_pandas_all] and returns the fetched frame otherwise; whatever
    happens, the cursor it opened is closed and no cursor is used outside
    its life; it writes nothing on the page; and an absent [params] is sent
    as an empty one. *)
Theorem run_query_closes_and_reraises (conn : Connection) (sql : string)
    (p : option (list (string * pyval))) :
  (run_query conn sql p).2
  = match connect conn with
    | Some e => inl e
    | None =>
        match execute conn sql (or_empty p) with
        | Some e => inl e
        | None => fetch_pandas_all conn
        end
    end
  ∧ cursors_closed (run_query conn sql p).1 = true
  ∧ Forall (λ ev, is_page ev = false) (run_query conn sql p).1
  ∧ (∀ b, EvExecute sql b ∈ (run_query conn sql p).1 → b = or_empty p)
  ∧ run_query conn sql None = run_query conn sql (Some []).
Proof.
  rewrite !run_query_unfold. unfold cursors_closed.
  destruct (connect conn) as [e|]; [|destruct (execute conn sql _) as [e|]];
    simpl; split_and!; try done;
    try (repeat apply Forall_cons_2; by try apply Forall_nil_2);
    intros b Hb; repeat (apply elem_of_cons in Hb as [Hb|Hb]; [by simplify_eq|]);
    by apply elem_of_nil in Hb.
Qed.

(** Every cursor is closed: whatever the connection answers and whatever is
    selected, the trace of [run_show_queries] and the trace of the whole
    "Currently Running" section open a cursor only while none is open,
    execute and fetch only on an open cursor, and end with no cursor open,
    also when they end with an exception. *)
Theorem live_path_closes_cursors (conn : Connection) (ws : list string)
    (w : string) (fallback_window : nat) :
  cursors_closed (run_show_queries conn w).1 = true
  ∧ cursors_closed (running_section conn ws fallback_window).1 = true.
Proof.
  unfold cursors_closed. rewrite !bool_decide_eq_true.
  split; [apply run_show_queries_cursor_use|].
  destruct (single_warehouse ws) eqn:Hs.
  - apply LiveSpec.single_warehouse_iff in Hs as (w' & -> & Hw').
    rewrite LiveSpec.running_section_single by done.
    pose proof (run_show_queries_cursor_use conn w') as Hr.
    destruct (run_show_queries conn w') as [t [e|df]]; simpl in *; [done|].
    destruct (df_empty (keep_running df)); simpl;
      rewrite cursor_use_app, Hr; simpl; [|done].
    by destruct (Live.run_query conn _ _).
  - unfold running_section. by rewrite Hs.
Qed.

Lemma col_index_None c cols : col_index c cols = None ↔ c ∉ cols.
Proof.
  induction cols as [|c' cols IH]; simpl.
  - split; [intros _ []%elem_of_nil|done].
  - rewrite not_elem_of_cons. case_bool_decide; [naive_solver|].
    destruct (col_index c cols); simpl; naive_solver.
Qed.

Lemma col_index_Some c cols i :
  col_index c cols = Some i →
  cols !! i = Some c ∧ ∀ j, j < i → cols !! j ≠ Some c.
Proof.
  revert i. induction cols as [|c' cols IH]; intros i; simpl; [done|].
  case_bool_decide.
  - intros [= <-]. subst. split; [done|]. lia.
  - destruct (col_index c cols) as [i'|]; simpl; [|done].
    intros [= <-]. destruct (IH i' eq_refl) as [Hi Hj]. split; [done|].
    intros [|j] Hlt; simpl; [congruence|]. apply Hj. lia.
Qed.

(** The restriction to RUNNING rows (lines 299-300). It never touches the
    columns and keeps rows in their order; a frame without a column spelled
    [execution_status] is left as it is; with that column, first at position
    [i], the rows kept are exactly the rows holding RUNNING at [i]; applying
    it twice changes nothing more; and a frame with columns comes out empty
    exactly when it has no such row. *)
Theorem running_filter (df : DataFrame) :
  columns (keep_running df) = columns df
  ∧ rows (keep_running df) `sublist_of` rows df
  ∧ keep_running (keep_running df) = keep_running df
  ∧ ("execution_status" ∉ columns df → keep_running df = df)
  ∧ (∀ i, col_index "execution_status" (columns df) = Some i →
       columns df !! i = Some "execution_status"
       ∧ (∀ j, j < i → columns df !! j ≠ Some "execution_status")
       ∧ (∀ r, r ∈ rows (keep_running df) ↔
            r ∈ rows df ∧ r !! i = Some "RUNNING")
       ∧ (df_empty (keep_running df) = true ↔
            ∀ r, r ∈ rows df → r !! i ≠ Some "RUNNING")).
Proof.
  unfold keep_running.
  destruct (col_index "execution_status" (columns df)) as [i|] eqn:Hi.
  - split_and!.
    + done.
    + apply sublist_filter.
    + simpl. rewrite Hi. unfold select_eq. simpl. f_equal.
      apply list_filter_filter_l. done.
    + intros Habs. apply col_index_None in Habs. congruence.
    + intros ? [= <-]. destruct (col_index_Some _ _ _ Hi) as [Hc Hfirst].
      split_and!; [done|done| |].
      * intros r. simpl. rewrite list_elem_of_filter. tauto.
      * unfold df_empty. simpl. rewrite orb_true_iff, !bool_decide_eq_true.
        split.
        -- intros [Hcols|Hrows] r Hr Hrun.
           ++ by rewrite Hcols in Hc.
           ++ assert (r ∈ filter (λ r, r !! i = Some "RUNNING") (rows df)) as Hin
                by (by apply list_elem_of_filter).
              rewrite Hrows in Hin. by apply elem_of_nil in Hin.
        -- intros Hnone. right.
           destruct (filter _ (rows df)) as [|r l] eqn:Hf; [done|].
           assert (r ∈ filter (λ r, r !! i = Some "RUNNING") (rows df)) as Hin
             by (rewrite Hf; left).
           apply list_elem_of_filter in Hin as [Hrun Hr].
           by destruct (Hnone r Hr).
  - split_and!; try done. by rewrite Hi.
Qed.

End ExecutorSpec.

(** ** The warehouse options *)

Module OptionsSpec.
Import Options.

Lemma insert_keys_elem keys l x :
  x ∈ insert_keys keys l ↔ x ∈ keys ∨ x ∈ l.
Proof.
  revert keys. induction l as [|k l IH]; intros keys; simpl.
  - set_solver.
  - unfold insert_keys in *. simpl. rewrite IH.
    case_bool_decide; set_solver.
Qed.

Lemma insert_keys_NoDup keys l : NoDup keys → NoDup (insert_keys keys l).
Proof.
  revert keys. induction l as [|k l IH]; intros keys Hk; [done|].
  unfold insert_keys in *. simpl. apply IH.
  case_bool_decide; [done|].
  apply NoDup_app. split_and!; [done| |apply NoDup_singleton].
  intros x Hx ->%list_elem_of_singleton. done.
Qed.

Lemma insert_keys_prefix keys l : ∃ r, insert_keys keys l = keys ++ r.
Proof.
  revert keys. induction l as [|k l IH]; intros keys.
  - exists []. by rewrite app_nil_r.
  - unfold insert_keys in *. simpl. case_bool_decide; [apply IH|].
    destruct (IH (keys ++ [k])) as [r ->]. exists (k :: r).
    by rewrite <-app_assoc.
Qed.

Lemma insert_keys_app keys l1 l2 :
  insert_keys keys (l1 ++ l2) = insert_keys (insert_keys keys l1) l2.
Proof. unfold insert_keys. apply foldl_app. Qed.

Lemma insert_keys_again keys l k :
  k ∈ keys ∨ k ∈ l → insert_keys keys (l ++ [k]) = insert_keys keys l.
Proof.
  intros Hk. rewrite insert_keys_app. unfold insert_keys at 1. simpl.
  rewrite bool_decide_eq_true_2; [done|]. by apply insert_keys_elem.
Qed.

Lemma fromkeys_finish d l :
  fromkeys (if bool_decide (d ∈ l) then l else l ++ [d]) = fromkeys (l ++ [d]).
Proof.
  unfold fromkeys.
  case_bool_decide; [|done]. symmetry. apply insert_keys_again. by right.
Qed.

Lemma fromkeys_head k l : head (fromkeys (k :: l)) = Some k.
Proof.
  change (fromkeys (k :: l)) with (insert_keys [k] l).
  by destruct (insert_keys_prefix [k] l) as [r ->].
Qed.

(** The warehouse options always offer the default warehouse. Unless the
    script was stopped, the options hold no name twice, start with ALL, and
    hold exactly ALL, the default warehouse and the listed names (none when
    listing failed); they are what [dict.fromkeys] leaves of ALL, the listed
    names and the default warehouse, so the test made before appending the
    default changes nothing. The default selection is therefore always the
    default warehouse alone, never the first option, and it selects a single
    warehouse unless the default warehouse is called ALL. *)
Theorem wh_options_offer_default (d : string) (listed : listing) :
  match wh_options d listed with
  | None => listed = Stopped
  | Some opts =>
      NoDup opts
      ∧ head opts = Some "ALL"
      ∧ (∀ x, x ∈ opts ↔
           x = "ALL" ∨ x = d ∨ ∃ names, listed = Listed names ∧ x ∈ names)
      ∧ opts = fromkeys ("ALL" :: match listed with
                                  | Listed names => names
                                  | _ => []
                                  end ++ [d])
      ∧ default_selection d opts = inr [d]
      ∧ (Live.single_warehouse [d] = true ↔ d ≠ "ALL")
  end.
Proof.
  assert (Live.single_warehouse [d] = true ↔ d ≠ "ALL") as Hsingle.
  { rewrite LiveSpec.single_warehouse_iff. split.
    - by intros (w & [= <-] & Hw).
    - intros Hd. by exists d. }
  destruct listed as [names|e|]; simpl; [| |done].
  - rewrite fromkeys_finish.
    change (["ALL"] ++ names) with ("ALL" :: names).
    assert (∀ x, x ∈ fromkeys (("ALL" :: names) ++ [d]) ↔
              x = "ALL" ∨ x = d ∨ ∃ names0, Listed names = Listed names0 ∧ x ∈ names0)
      as Hmem.
    { intros x. unfold fromkeys. rewrite insert_keys_elem.
      rewrite elem_of_app, elem_of_cons, list_elem_of_singleton. split.
      - intros [[]%elem_of_nil|[[->|Hx]| ->]]; eauto.
      - intros [->|[->|(names0 & [= <-] & Hx)]]; eauto. }
    split_and!; [| |done|done| |done].
    + by apply insert_keys_NoDup, NoDup_nil.
    + apply fromkeys_head.
    + unfold default_selection. rewrite bool_decide_eq_true_2; [done|].
      apply Hmem. eauto.
  - rewrite fromkeys_finish.
    assert (∀ x, x ∈ fromkeys ((["ALL"] ++ [d]) ++ [d]) ↔
              x = "ALL" ∨ x = d ∨ ∃ names0, Raised e = Listed names0 ∧ x ∈ names0)
      as Hmem.
    { intros x. unfold fromkeys. rewrite insert_keys_elem.
      rewrite !elem_of_app, !list_elem_of_singleton. split.
      - intros [[]%elem_of_nil|[[->| ->]| ->]]; eauto.
      - intros [->|[->|(names0 & [=] & Hx)]]; eauto. }
    split_and!; [| |done| | |done].
    + by apply insert_keys_NoDup, NoDup_nil.
    + apply fromkeys_head.
    + apply (insert_keys_again [] ["ALL"; d] d). right. set_solver.
    + unfold default_selection. rewrite bool_decide_eq_true_2; [done|].
      apply Hmem. eauto.
Qed.

End OptionsSpec.

(** ** Configuration and start-up *)

Module ConfigFacts.
Import Config.

Lemma dict_get_None k d : dict_get k d = None ↔ k ∉ d.*1.
Proof.
  induction d as [|[k' v] d IH]; simpl.
  - split; [intros _ []%elem_of_nil|done].
  - rewrite not_elem_of_cons. case_bool_decide; [|naive_solver].
    split; [done|]. intros [? _]. congruence.
Qed.

Lemma dict_get_elem k v d : dict_get k d = Some v → (k, v) ∈ d.
Proof.
  induction d as [|[k' v'] d IH]; simpl; [done|].
  case_bool_decide.
  - intros [= <-]. subst. left.
  - intros ?. right. auto.
Qed.

Lemma dict_get_Some k v d :
  NoDup d.*1 → dict_get k d = Some v ↔ (k, v) ∈ d.
Proof.
  intros Hd. split; [apply dict_get_elem|].
  induction d as [|[k' v'] d IH]; simpl; [by intros ?%elem_of_nil|].
  rewrite fmap_cons in Hd. apply NoDup_cons in Hd as [Hk' Hd]. cbn [fst] in Hk'.
  intros [[= -> ->]|Hin]%elem_of_cons.
  - by rewrite bool_decide_eq_true_2.
  - rewrite bool_decide_eq_false_2; [auto|].
    intros ->. apply Hk'. apply list_elem_of_fmap. by exists (k, v).
Qed.

Lemma dict_get_set k k' v d :
  dict_get k (dict_set k' v d) = if bool_decide (k' = k) then Some v else dict_get k d.
Proof.
  induction d as [|[k0 v0] d IH]; simpl.
  - done.
  - destruct (bool_decide (k0 = k')) eqn:H0; simpl.
    + apply bool_decide_eq_true in H0 as ->. by case_bool_decide.
    + apply bool_decide_eq_false in H0. rewrite IH.
      repeat case_bool_decide; congruence.
Qed.

Lemma dict_set_keys k v d :
  (dict_set k v d).*1 = if bool_decide (k ∈ d.*1) then d.*1 else d.*1 ++ [k].
Proof.
  induction d as [|[k0 v0] d IH]; [done|]. cbn [dict_set].
  destruct (bool_decide (k0 = k)) eqn:H0; rewrite !fmap_cons; cbn [fst].
  - apply bool_decide_eq_true in H0 as ->.
    rewrite bool_decide_eq_true_2; [done|left].
  - apply bool_decide_eq_false in H0. rewrite IH.
    destruct (bool_decide (k ∈ d.*1)) eqn:Hin.
    + apply bool_decide_eq_true in Hin.
      rewrite bool_decide_eq_true_2; [done|by right].
    + apply bool_decide_eq_false in Hin.
      rewrite bool_decide_eq_false_2; [done|].
      intros [?|?]%elem_of_cons; congruence.
Qed.

Lemma dict_set_NoDup k v d : NoDup d.*1 → NoDup (dict_set k v d).*1.
Proof.
  intros Hd. rewrite dict_set_keys. case_bool_decide; [done|].
  apply NoDup_app. split_and!; [done| |apply NoDup_singleton].
  by intros x Hx ->%list_elem_of_singleton.
Qed.

Lemma dict_update_NoDup d d' : NoDup d.*1 → NoDup (dict_update d d').*1.
Proof.
  revert d. induction d' as [|[k v] d' IH]; intros d Hd; [done|].
  apply IH. by apply dict_set_NoDup.
Qed.

(** A later layer wins, key by key. *)
Lemma dict_get_update k d d' :
  NoDup d'.*1 →
  dict_get k (dict_update d d')
  = match dict_get k d' with
    | Some v => Some v
    | None => dict_get k d
    end.
Proof.
  revert d. induction d' as [|[k' v'] d' IH]; intros d Hd'; [done|].
  rewrite fmap_cons in Hd'. apply NoDup_cons in Hd' as [Hk' Hd']. cbn [fst] in Hk'.
  change (dict_update d ((k', v') :: d'))
    with (dict_update (dict_set k' v' d) d').
  rewrite IH, dict_get_set by done. cbn [dict_get].
  case_bool_decide; [|done]. subst.
  by apply dict_get_None in Hk' as ->.
Qed.


Lemma apply_env_NoDup m env : NoDup m.*1 → NoDup (apply_env m env).*1.
Proof.
  revert m. induction env as [|[k e] env IH]; intros m Hm; [done|].
  apply IH. simpl. destruct (truthy e); [by apply dict_set_NoDup|done].
Qed.

Lemma apply_env_set k e m env :
  NoDup env.*1 → (k, e) ∈ env → truthy e = true →
  dict_get k (apply_env m env) = Some (Str e).
Proof.
  revert m. induction env as [|[k' e'] env IH]; intros m Hnd Hin He.
  - by apply elem_of_nil in Hin.
  - rewrite fmap_cons in Hnd. apply NoDup_cons in Hnd as [Hk' Hnd]. cbn [fst] in Hk'.
    apply elem_of_cons in Hin as [[= <- <-]|Hin].
    + unfold apply_env. simpl. rewrite He.
      clear IH. fold (apply_env (dict_set k (Str e) m) env).
      assert (∀ m', dict_get k m' = Some (Str e) →
                dict_get k (apply_env m' env) = Some (Str e)) as Hkeep.
      { clear -Hk'. induction env as [|[k1 e1] env IH]; intros m' Hm'; [done|].
        apply not_elem_of_cons in Hk' as [Hne Hk'].
        unfold apply_env. simpl. destruct (truthy e1); [|by apply IH].
        apply IH; [done|]. rewrite dict_get_set.
        by rewrite bool_decide_eq_false_2. }
      apply Hkeep. rewrite dict_get_set. by rewrite bool_decide_eq_true_2.
    + unfold apply_env. simpl. by apply IH.
Qed.

Lemma apply_env_keep k m env :
  (∀ e, (k, e) ∈ env → truthy e = false) →
  dict_get k (apply_env m env) = dict_get k m.
Proof.
  revert m. induction env as [|[k' e'] env IH]; intros m Hk; [done|].
  unfold apply_env. simpl. fold (apply_env (if truthy e' then dict_set k' (Str e') m else m) env).
  rewrite IH by (intros e He; apply Hk; by right).
  destruct (truthy e') eqn:He'; [|done].
  rewrite dict_get_set. case_bool_decide; [|done]. subst.
  rewrite Hk in He'; [done|left].
Qed.

Lemma env_override_NoDup getenv : NoDup (env_override getenv).*1.
Proof. unfold env_override. simpl. apply NoDup_ListNoDup. repeat constructor; set_solver. Qed.

Lemma default_warehouse_NoDup m : NoDup m.*1 → NoDup (default_warehouse m).*1.
Proof.
  intros Hm. unfold default_warehouse.
  destruct (dict_get "warehouse" m) as [v|]; [destruct (truth v)|];
    by try apply dict_set_NoDup.
Qed.

Lemma default_warehouse_get k m :
  dict_get k (default_warehouse m)
  = if bool_decide (k = "warehouse") then
      match dict_get "warehouse" m with
      | Some v => Some (if truth v then v else Str Options.DEFAULT_WAREHOUSE)
      | None => Some (Str Options.DEFAULT_WAREHOUSE)
      end
    else dict_get k m.
Proof.
  unfold default_warehouse.
  destruct (dict_get "warehouse" m) as [v|] eqn:Hw; [destruct (truth v) eqn:Hv|];
    rewrite ?dict_get_set; repeat case_bool_decide; congruence.
Qed.

Lemma dict_get_filter (P : string * value → Prop) `{!∀ x, Decision (P x)} k d :
  NoDup d.*1 →
  dict_get k (filter P d)
  = match dict_get k d with
    | Some v => if decide (P (k, v)) then Some v else None
    | None => None
    end.
Proof.
  induction d as [|[k' v'] d IH]; intros Hd; [done|].
  rewrite fmap_cons in Hd. apply NoDup_cons in Hd as [Hk' Hd]. cbn [fst] in Hk'. simpl.
  rewrite filter_cons. destruct (decide (P (k', v'))) as [HP|HP]; simpl.
  - case_bool_decide; [subst; by rewrite decide_True|by apply IH].
  - case_bool_decide; [subst|by apply IH].
    rewrite decide_False by done.
    apply dict_get_None. intros (kv & Hkv & Hin%list_elem_of_filter)%list_elem_of_fmap.
    apply Hk'. apply list_elem_of_fmap. exists kv. tauto.
Qed.

End ConfigFacts.

Module ConfigSpec.
Import Config ConfigTerms ConfigFacts.

Lemma load_config_eq file secrets getenv :
  load_config file secrets getenv
  = (match file with Unreadable => [unreadable_warning] | _ => [] end,
     default_warehouse
       (apply_env (dict_update (dict_update [] (file_cfg file)) (default [] secrets))
          (env_override getenv))).
Proof. by destruct file as [| |[d|]]. Qed.

Lemma load_config_NoDup file secrets getenv :
  NoDup (load_config file secrets getenv).2.*1.
Proof.
  rewrite load_config_eq. cbn [snd].
  apply default_warehouse_NoDup, apply_env_NoDup.
  do 2 apply dict_update_NoDup. apply NoDup_nil_2.
Qed.

Lemma truth_default_warehouse (o : option value) :
  truth match o with
        | Some v => if truth v then v else Str Options.DEFAULT_WAREHOUSE
        | None => Str Options.DEFAULT_WAREHOUSE
        end = true.
Proof. destruct o as [v|]; [|done]. by destruct (truth v) eqn:Hv. Qed.

Lemma load_config_warehouse file secrets getenv :
  ∃ w, dict_get "warehouse" (load_config file secrets getenv).2 = Some w
       ∧ truth w = true.
Proof.
  rewrite load_config_eq. cbn [snd]. rewrite default_warehouse_get.
  rewrite bool_decide_eq_true_2 by done.
  destruct (dict_get "warehouse" _) as [v|]; eexists; (split; [done|]).
  - apply (truth_default_warehouse (Some v)).
  - done.
Qed.

Lemma missing_iff cfg k :
  NoDup cfg.*1 →
  k ∈ missing cfg ↔ k ∈ credentials ∧ bound_falsy cfg k.
Proof.
  intros Hcfg. unfold missing, bound_falsy. rewrite list_elem_of_fmap. split.
  - intros ([k' v] & -> & [[Hk Hv] Hin]%list_elem_of_filter). simpl in *.
    split; [done|]. exists v. split; [|done]. by apply dict_get_Some.
  - intros (Hk & v & Hget & Hv). exists (k, v). split; [done|].
    apply list_elem_of_filter. split; [done|]. by apply dict_get_Some.
Qed.

Example sample_config :
  load_config sample_file sample_secrets sample_env
  = ([], [("account", Str EmptyString); ("user", Str "operator");
          ("password", Str "secret"); ("database", Str "SNOWFLAKE");
          ("role", Str "MONITOR");
          ("warehouse", Str "FIVETRAN_WAREHOUSE")]).
Proof. vm_compute. reflexivity. Qed.

(** The credentials check of [get_connection]. The keys it reports are the
    ones among account, user and password that the configuration binds to a
    falsy value; it stops the script, naming them, exactly when there is
    one. Otherwise [connect] receives the bindings of the configuration
    whose value is truthy, the warehouse always among them. Warnings are
    those of [load_config]. *)
Theorem credentials_check (file : config_file) (secrets : option dict)
    (getenv : string → option string) :
  let cfg := (load_config file secrets getenv).2 in
  (∀ k, k ∈ missing cfg ↔ k ∈ credentials ∧ bound_falsy cfg k)
  ∧ match (get_connection file secrets getenv).2 with
    | Stop error =>
        (∃ k, k ∈ credentials ∧ bound_falsy cfg k)
        ∧ error = "Missing Snowflake credentials (config.json or env vars): "
                  +:+ join ", " (missing cfg)
    | Connect kwargs =>
        (∀ k, k ∈ credentials → ¬ bound_falsy cfg k)
        ∧ (∀ k v, dict_get k kwargs = Some v ↔
             dict_get k cfg = Some v ∧ truth v = true)
        ∧ is_Some (dict_get "warehouse" kwargs)
    end
  ∧ (get_connection file secrets getenv).1 = (load_config file secrets getenv).1.
Proof.
  intros cfg.
  pose proof (load_config_NoDup file secrets getenv) as Hnd. fold cfg in Hnd.
  pose proof (load_config_warehouse file secrets getenv) as (w & Hw & Hwt).
  fold cfg in Hw.
  assert (∀ k, k ∈ missing cfg ↔ k ∈ credentials ∧ bound_falsy cfg k) as Hm
    by (intros k; by apply missing_iff).
  assert (∀ k v, dict_get k (filter (λ kv, truth kv.2 = true) cfg) = Some v ↔
            dict_get k cfg = Some v ∧ truth v = true) as Hkw.
  { intros k v. rewrite dict_get_filter by done.
    destruct (dict_get k cfg) as [v'|]; [|naive_solver].
    destruct (decide _) as [Hv|Hv]; simpl in Hv; naive_solver. }
  unfold get_connection.
  destruct (load_config file secrets getenv) as [warnings cfg'] eqn:Hl.
  simpl in cfg. subst cfg. cbn [fst snd]. split_and!; [done| |done].
  unfold check_config. destruct (missing cfg') as [|k0 ks] eqn:Hmiss.
  - split_and!; [|done|].
    + intros k Hk Hf. assert (k ∈ []) as Hin by (apply Hm; done).
      by apply elem_of_nil in Hin.
    + exists w. by apply Hkw.
  - split; [|done]. exists k0. apply Hm. left.
Qed.



Example nothing_configured :
  get_connection NoFile None no_env
  = ([], Connect [("warehouse", Str "FIVETRAN_WAREHOUSE")]).
Proof. vm_compute. reflexivity. Qed.



End ConfigSpec.

(** ** Every state of the configuration file *)

Module ConfigFileSpec.
Import Config ConfigTerms ConfigFacts ConfigFile ConfigFileTerms.

(** On the states of [Config.config_file] the two embeddings of
    [load_config] agree. *)
Lemma load_config_returns file secrets getenv :
  load_config (of_config_file file) secrets getenv
  = ((Config.load_config file secrets getenv).1,
     inr (Config.load_config file secrets getenv).2).
Proof. by destruct file as [| |[d|]]. Qed.

Lemma layers_get cfg secrets k :
  NoDup cfg.*1 → NoDup (default [] secrets).*1 →
  dict_get k (dict_update (dict_update [] cfg) (default [] secrets))
  = below cfg secrets k.
Proof.
  intros Hf Hs. unfold below. rewrite !dict_get_update by done.
  destruct (dict_get k (default [] secrets)); [done|].
  by destruct (dict_get k cfg).
Qed.

Section layers.
Context (cfg : dict) (secrets : option dict) (getenv : string → option string).
Hypothesis cfg_NoDup : NoDup cfg.*1.
Hypothesis secrets_NoDup : NoDup (default [] secrets).*1.

Let merged : dict :=
  default_warehouse
    (apply_env (dict_update (dict_update [] cfg) (default [] secrets))
       (env_override getenv)).

Lemma merged_env k e :
  (k, e) ∈ env_override getenv → truthy e = true →
  dict_get k merged = Some (Str e).
Proof.
  intros Hin He. unfold merged. rewrite default_warehouse_get.
  pose proof (apply_env_set k e
    (dict_update (dict_update [] cfg) (default [] secrets))
    (env_override getenv) (env_override_NoDup getenv) Hin He) as Hget.
  case_bool_decide; [|done]. subst. rewrite Hget. simpl. by rewrite He.
Qed.

Lemma merged_below k :
  (∀ e, (k, e) ∈ env_override getenv → truthy e = false) →
  k ≠ "warehouse" → dict_get k merged = below cfg secrets k.
Proof.
  intros Hk Hw. unfold merged. rewrite default_warehouse_get.
  rewrite bool_decide_eq_false_2 by done.
  rewrite apply_env_keep by done. by apply layers_get.
Qed.

Lemma merged_warehouse :
  (∀ e, ("warehouse", e) ∈ env_override getenv → truthy e = false) →
  dict_get "warehouse" merged
  = Some match below cfg secrets "warehouse" with
         | Some v => if truth v then v else Str Options.DEFAULT_WAREHOUSE
         | None => Str Options.DEFAULT_WAREHOUSE
         end.
Proof.
  intros Hk. unfold merged. rewrite default_warehouse_get.
  rewrite bool_decide_eq_true_2 by done.
  rewrite apply_env_keep by done. rewrite layers_get by done.
  by destruct (below cfg secrets "warehouse").
Qed.

Lemma merged_NoDup : NoDup merged.*1.
Proof.
  unfold merged. apply default_warehouse_NoDup, apply_env_NoDup.
  do 2 apply dict_update_NoDup. apply NoDup_nil_2.
Qed.
End layers.

Lemma load_config_unfold st secrets getenv :
  load_config st secrets getenv
  = match st with
    | Uncaught e | Parsed (Unfit e) => ([], inl e)
    | _ =>
        (match st with Caught => [unreadable_warning] | _ => [] end,
         inr (default_warehouse
                (apply_env
                   (dict_update (dict_update [] (state_cfg st)) (default [] secrets))
                   (env_override getenv))))
    end.
Proof. by destruct st as [|[|d|e]| |e]. Qed.

(** [load_config] in every state of the file, with each key once in the
    file's items and in the secrets. It raises, showing no warning, exactly
    when reading the file raises an exception the [except] clause does not
    name or when [merged.update] rejects the parsed document, and then it
    raises that exception. Otherwise it returns a dict with each key once,
    in which a variable of the environment that is set to a text that is not
    empty decides its key; otherwise the secrets decide a key they bind, even
    to an empty value, and the file decides the rest; the warehouse alone
    falls back to the default when the layers leave it unbound or falsy. The
    warning is shown exactly when the read failed with an error the clause
    names. *)
Theorem load_config_layers (st : file_state) (secrets : option dict)
    (getenv : string → option string) :
  NoDup (state_cfg st).*1 → NoDup (default [] secrets).*1 →
  match load_config st secrets getenv with
  | (warnings, inl e) =>
      warnings = [] ∧ (st = Uncaught e ∨ st = Parsed (Unfit e))
  | (warnings, inr merged) =>
      (∀ e, st ≠ Uncaught e ∧ st ≠ Parsed (Unfit e))
      ∧ (∀ k e, (k, e) ∈ env_override getenv → truthy e = true →
           dict_get k merged = Some (Str e))
      ∧ (∀ k, (∀ e, (k, e) ∈ env_override getenv → truthy e = false) →
           k ≠ "warehouse" →
           dict_get k merged = below (state_cfg st) secrets k)
      ∧ ((∀ e, ("warehouse", e) ∈ env_override getenv → truthy e = false) →
           dict_get "warehouse" merged
           = Some match below (state_cfg st) secrets "warehouse" with
                  | Some v => if truth v then v else Str Options.DEFAULT_WAREHOUSE
                  | None => Str Options.DEFAULT_WAREHOUSE
                  end)
      ∧ NoDup merged.*1
      ∧ (warnings = [unreadable_warning] ↔ st = Caught)
      ∧ (warnings = [] ↔ st ≠ Caught)
  end.
Proof.
  intros Hf Hs. rewrite load_config_unfold.
  assert (∀ warnings,
    (∀ e, st ≠ Uncaught e ∧ st ≠ Parsed (Unfit e)) →
    (warnings = [unreadable_warning] ↔ st = Caught) →
    (warnings = [] ↔ st ≠ Caught) →
    let merged :=
      default_warehouse
        (apply_env
           (dict_update (dict_update [] (state_cfg st)) (default [] secrets))
           (env_override getenv)) in
    (∀ e, st ≠ Uncaught e ∧ st ≠ Parsed (Unfit e))
    ∧ (∀ k e, (k, e) ∈ env_override getenv → truthy e = true →
         dict_get k merged = Some (Str e))
    ∧ (∀ k, (∀ e, (k, e) ∈ env_override getenv → truthy e = false) →
         k ≠ "warehouse" →
         dict_get k merged = below (state_cfg st) secrets k)
    ∧ ((∀ e, ("warehouse", e) ∈ env_override getenv → truthy e = false) →
         dict_get "warehouse" merged
         = Some match below (state_cfg st) secrets "warehouse" with
                | Some v => if truth v then v else Str Options.DEFAULT_WAREHOUSE
                | None => Str Options.DEFAULT_WAREHOUSE
                end)
    ∧ NoDup merged.*1
    ∧ (warnings = [unreadable_warning] ↔ st = Caught)
    ∧ (warnings = [] ↔ st ≠ Caught)) as Hreturns.
  { intros warnings Hst Hw1 Hw2 merged. split_and!; try done.
    - intros k e. by apply merged_env.
    - intros k. by apply merged_below.
    - by apply merged_warehouse.
    - apply merged_NoDup. }
  destruct st as [|[|d|e]| |e].
  - apply Hreturns; [by split|done|done].
  - apply Hreturns; [by split|done|done].
  - apply Hreturns; [by split|done|done].
  - split; [done|by right].
  - apply Hreturns; [by split|done|]. split; [done|]. by intros [].
  - split; [done|by left].
Qed.

(** [load_config_layers] on a file with four keys, secrets with an empty
    account and a role, and an environment that sets the user. *)
Lemma load_config_layers_witness :
  match load_config sample_state sample_secrets sample_env with
  | (warnings, inl e) =>
      warnings = [] ∧ (sample_state = Uncaught e ∨ sample_state = Parsed (Unfit e))
  | (warnings, inr merged) =>
      (∀ e, sample_state ≠ Uncaught e ∧ sample_state ≠ Parsed (Unfit e))
      ∧ (∀ k e, (k, e) ∈ env_override sample_env → truthy e = true →
           dict_get k merged = Some (Str e))
      ∧ (∀ k, (∀ e, (k, e) ∈ env_override sample_env → truthy e = false) →
           k ≠ "warehouse" →
           dict_get k merged = below (state_cfg sample_state) sample_secrets k)
      ∧ ((∀ e, ("warehouse", e) ∈ env_override sample_env → truthy e = false) →
           dict_get "warehouse" merged
           = Some match below (state_cfg sample_state) sample_secrets "warehouse" with
                  | Some v => if truth v then v else Str Options.DEFAULT_WAREHOUSE
                  | None => Str Options.DEFAULT_WAREHOUSE
                  end)
      ∧ NoDup merged.*1
      ∧ (warnings = [unreadable_warning] ↔ sample_state = Caught)
      ∧ (warnings = [] ↔ sample_state ≠ Caught)
  end.
Proof.
  apply (load_config_layers sample_state sample_secrets sample_env);
    simpl; apply NoDup_ListNoDup; repeat constructor; set_solver.
Defined.

Example sample_state_config :
  load_config sample_state sample_secrets sample_env
  = ([], inr [("account", Str EmptyString); ("user", Str "operator");
              ("password", Str "secret"); ("database", Str "SNOWFLAKE");
              ("role", Str "MONITOR");
              ("warehouse", Str "FIVETRAN_WAREHOUSE")]).
Proof. vm_compute. reflexivity. Qed.

End ConfigFileSpec.
